(** * ShareDB client connection and server pub/sub core

    A shallow embedding of [src/lib/client/connection.ts] (class
    [Connection]) and [src/lib/pubsub/pubsub.ts] (class [PubSub]).

    - JavaScript values that travel over the wire are JSON-like trees
      ([Js.value]); a JavaScript object is an association list of its own
      enumerable properties, in the order [for .. in] visits them. What an
      object inherits from [Object.prototype] is not in it: the names
      concerned are listed in [Js.prototype_member], and what is proved of
      a registry read under a key says where the key is assumed to be none
      of them.
    - The methods of [Connection] are state transformers in a small
      state-and-exception monad: the exceptions raised inside the class
      are that of [EventEmitter.emit('error', ..)] without a listener and
      the [TypeError] of [sendOp] reading a field of a missing operation.
    - Counters ([nextQueryId], [nextStreamId], [streamsCount]) are
      integers; the doubles of the source agree with them below 2^53.
    - Collaborators that live outside these two files ([Doc], [Query], the
      socket, the pub/sub transport, user callbacks and event listeners) are
      opaque: every call made on them is appended, in call order, to a
      [trace] field of the state. What a collaborator does in answer,
      calling back into the connection included, is no part of the method
      that called it; such calls are operations of their own in a run.
    - [process.nextTick] is a queue of pending tasks in the state.

    The quiescence scanner of [Connection] ([hasPending],
    [hasWritePending], [whenNothingPending]) and [_emit] of [PubSub] have
    modules of their own, [Quiescence] and [PubSubDelivery]. Left out:
    [close] of [PubSub], which destroys the streams while it walks the map
    they are removed from; what [destroy] does is not in these files. *)

From Stdlib Require Import ZArith String Ascii List Bool Lia Permutation.
From stdpp Require Import gmap strings list fin_maps pretty.
From stdpp Require Import sorting.
Import ListNotations.

(** ** JavaScript values *)

Module Js.

#[local] Set Warnings "-register-all".


Inductive value : Type :=
| Undefined
| Null
| Bool (b : bool)
| Num (n : Z)
| Str (s : string)
| Arr (items : list value)
| Obj (props : list (string * value)).

(** Own enumerable properties of an object, in enumeration order. *)
Definition obj (A : Type) : Type := list (string * A).

(** [if (v)] *)
Definition truthy (v : value) : bool :=
  match v with
  | Undefined | Null => false
  | Bool b => b
  | Num n => negb (n =? 0)%Z
  | Str s => negb (String.eqb s "")
  | Arr _ | Obj _ => true
  end.

(** [v == null] *)
Definition nullish (v : value) : bool :=
  match v with
  | Undefined | Null => true
  | _ => false
  end.

(** [v === 'literal'] *)
Definition is_str (lit : string) (v : value) : bool :=
  match v with
  | Str s => String.eqb s lit
  | _ => false
  end.

(** [v === n] for a number literal *)
Definition is_num (lit : Z) (v : value) : bool :=
  match v with
  | Num n => (n =? lit)%Z
  | _ => false
  end.

(** [typeof v === 'string'] *)
Definition is_string (v : value) : bool :=
  match v with
  | Str _ => true
  | _ => false
  end.

(** *** Property keys

    A key that is a canonical array index (["0"], ["17"], no leading
    zero, at most 2^32 - 2) is enumerated before every other key, in
    ascending numeric order; the other keys come in insertion order. *)

Definition digit (a : ascii) : option N :=
  let n := N_of_ascii a in
  if ((48 <=? n) && (n <=? 57))%N then Some (n - 48)%N else None.

Fixpoint digits (s : string) (acc : N) : option N :=
  match s with
  | EmptyString => Some acc
  | String a rest =>
      match digit a with
      | Some d => digits rest (acc * 10 + d)%N
      | None => None
      end
  end.

Definition array_index (k : string) : option N :=
  match k with
  | EmptyString => None
  | String a EmptyString => digit a
  | String a _ =>
      if Ascii.eqb a "0" then None
      else match digits k 0 with
           | Some n => if (n <=? 4294967294)%N then Some n else None
           | None => None
           end
  end.

(** A key [k] that is not yet in the object is enumerated before the
    present key [k']. *)
Definition key_before (k k' : string) : bool :=
  match array_index k, array_index k' with
  | Some n, Some n' => (n <? n')%N
  | Some _, None => true
  | None, _ => false
  end.

Section Objects.
Context {A : Type}.

(** [o[k]] on own properties; [None] is [undefined]. For the names of
    [prototype_member] below, the source reads an inherited member where
    this finds nothing. *)
Fixpoint obj_get (k : string) (o : obj A) : option A :=
  match o with
  | [] => None
  | (k', v) :: rest => if String.eqb k k' then Some v else obj_get k rest
  end.

(** [o.hasOwnProperty(k)] *)
Definition obj_has (k : string) (o : obj A) : bool :=
  match obj_get k o with
  | Some _ => true
  | None => false
  end.

(** Assignment to a present key keeps its place. *)
Fixpoint obj_replace (k : string) (v : A) (o : obj A) : obj A :=
  match o with
  | [] => []
  | (k', v') :: rest =>
      if String.eqb k k' then (k, v) :: rest
      else (k', v') :: obj_replace k v rest
  end.

(** Assignment to an absent key creates the property. *)
Fixpoint obj_insert (k : string) (v : A) (o : obj A) : obj A :=
  match o with
  | [] => [(k, v)]
  | (k', v') :: rest =>
      if key_before k k' then (k, v) :: (k', v') :: rest
      else (k', v') :: obj_insert k v rest
  end.

(** [o[k] = v] *)
Definition obj_set (k : string) (v : A) (o : obj A) : obj A :=
  if obj_has k o then obj_replace k v o else obj_insert k v o.

(** [delete o[k]] *)
Definition obj_delete (k : string) (o : obj A) : obj A :=
  List.filter (fun kv => negb (String.eqb k (fst kv))) o.

(** The keys [for (k in o)] visits. *)
Definition obj_keys (o : obj A) : list string := map fst o.
End Objects.

(** *** Inherited names

    The maps of both classes are plain objects, read in the source with
    [o[k]] and tested for truthiness. When [k] is one of the names below
    and the object has no own property [k], [Object.prototype] answers: a
    function, or for [__proto__] the prototype itself, truthy in every
    case. An object here is its own properties only. What the model says of
    a lookup, an assignment or a [delete] under a key is what the source
    does when the key is none of these names; the properties proved of
    such operations say so in a hypothesis. *)
Definition prototype_member (k : string) : bool :=
  existsb (String.eqb k)
    ["constructor"; "hasOwnProperty"; "isPrototypeOf"; "propertyIsEnumerable";
     "toLocaleString"; "toString"; "valueOf"; "__proto__";
     "__defineGetter__"; "__defineSetter__"; "__lookupGetter__";
     "__lookupSetter__"].

(** Modelled from the spec: [util.hasKeys] of [src/lib/util] is not among
    the sources. The spec describes its two uses as testing whether the
    inner mapping is empty ("removes the empty inner mapping", "if the
    inner map is now empty"). *)
Definition hasKeys {A : Type} (o : obj A) : bool :=
  match o with
  | [] => false
  | _ :: _ => true
  end.

(** *** Conversions and property access on values *)

(** [String(v)], as used when a value serves as a property key. Numbers
    are integers here; the wire protocol carries no other number in a key
    position. *)
Fixpoint to_string (v : value) : string :=
  match v with
  | Undefined => "undefined"
  | Null => "null"
  | Bool true => "true"
  | Bool false => "false"
  | Num n => pretty n
  | Str s => s
  | Arr items =>
      (fix join (l : list value) : string :=
         match l with
         | [] => ""
         | x :: rest =>
             let sx := match x with
                       | Undefined | Null => ""
                       | _ => to_string x
                       end in
             match rest with
             | [] => sx
             | _ :: _ => sx +:+ "," +:+ join rest
             end
         end) items
  | Obj _ => "[object Object]"
  end.

(** Index keys ["0"] .. ["n-1"]. *)
Definition index_keys (n : nat) : list string :=
  map (fun i => pretty (N.of_nat i)) (seq 0 n).

(** The keys visited by [for (k in v)]. *)
Definition enum_keys (v : value) : list string :=
  match v with
  | Obj props => obj_keys props
  | Arr items => index_keys (length items)
  | Str s => index_keys (String.length s)
  | _ => []
  end.

(** [v[k]] for a value that is neither [null] nor [undefined]. *)
Definition prop (v : value) (k : string) : value :=
  match v with
  | Obj props => default Undefined (obj_get k props)
  | Arr items =>
      if String.eqb k "length" then Num (Z.of_nat (length items))
      else match array_index k with
           | Some i => nth (N.to_nat i) items Undefined
           | None => Undefined
           end
  | Str s =>
      if String.eqb k "length" then Num (Z.of_nat (String.length s))
      else match array_index k with
           | Some i =>
               match String.get (N.to_nat i) s with
               | Some a => Str (String a EmptyString)
               | None => Undefined
               end
           | None => Undefined
           end
  | _ => Undefined
  end.

(** [v.hasOwnProperty(k)] for a name [k] that is not an index or
    ["length"], on a value that has no field named [hasOwnProperty] of its
    own, so that the call reaches [Object.prototype.hasOwnProperty]. *)
Definition has_own (v : value) (k : string) : bool :=
  match v with
  | Obj props => obj_has k props
  | _ => false
  end.

(** [delete v[k]], in place. *)
Definition delete_prop (v : value) (k : string) : value :=
  match v with
  | Obj props => Obj (obj_delete k props)
  | _ => v
  end.

End Js.

(** ** The client connection ([connection.ts]) *)

Module ClientConnection.

(** *** Collaborators *)

(** What the connection reads of a [Doc]: its identity and three fields. *)
Record Doc : Type := {
  doc_ref : nat;
  doc_collection : string;
  doc_id : string;
  doc_version : Js.value
}.

(** What the connection reads of a [Query]. *)
Record Query : Type := {
  query_ref : nat;
  query_id : Js.value
}.

(** The socket adapter. [close_fires] is the reason with which [close()]
    runs the installed [onclose] handler before returning ([None] when the
    close event is only delivered later, as a browser WebSocket does). *)
Record Socket : Type := {
  sock_ref : nat;
  readyState : Js.value;
  close_fires : option Js.value
}.

Inductive JsError : Type :=
| ShareDBError (code : Z) (message : string)
  (** [new ShareDBError(code, message)] *)
| WrappedError (message code data : Js.value)
  (** [new Error(m)] with [.code] and [.data] assigned; the constructor's
      conversion of [m] to a string is not applied *)
| TypeError.
  (** property access on [null] or [undefined] *)

(** An argument handed to a collaborator. *)
Inductive Arg : Type :=
| AVal (v : Js.value)
| AErr (e : JsError)
| ADoc (ref : nat).

(** One call that leaves the class. *)
Inductive Effect : Type :=
| Emit (event : string) (args : list Arg)
| SocketSend (sock : nat) (frame : Js.value)
  (** [socket.send(JSON.stringify(frame))] *)
| SocketClose (sock : nat)
| SocketUnbind (sock : nat)
| SocketBind (sock : nat)
| DocCall (doc : nat) (method : string) (args : list Arg)
| QueryCall (query : nat) (method : string) (args : list Arg)
| NewDoc (ref : nat) (collection id : string)
| NewQuery (ref : nat) (action : string) (id : Z) (collection : string)
    (q options : Js.value) (callback : nat)
| NextTickEmit (event : string) (args : list Arg)
| ConsoleLog (tag : string) (v : Js.value)
| ConsoleWarn (text : string) (v : Js.value)
| ConsoleError (text : string) (v : Js.value).

(** *** State *)

Record Connection : Type := {
  (* collection -> id -> doc object *)
  collections : Js.obj (Js.obj nat);
  (* a double in the source, which counts exactly below 2^53 *)
  nextQueryId : Z;
  (* query id -> query object *)
  queries : Js.obj nat;
  seq : Z;
  id : Js.value;
  (* [None] is [null] *)
  agent : option nat;
  debug : bool;
  state : string;
  (* [None] before the first [bindToSocket] *)
  socket : option Socket;
  (* [false] also stands for the unset field *)
  canSend : bool;
  (* collection -> action -> id -> version; [None] is [null] *)
  bulk : option (Js.obj (Js.obj (Js.obj Js.value)));
  (* whether the four handlers of [socket] are installed *)
  bound : bool;
  (* whether a listener for ['error'] is registered on the emitter *)
  error_listener : bool;
  (* allocator of object identities for [new Doc] and [new Query] *)
  next_ref : nat;
  (* calls on collaborators, oldest first *)
  trace : list Effect
}.

(** Field updates. *)
Definition set_collections (x : Js.obj (Js.obj nat)) (c : Connection) : Connection :=
  {| collections := x; nextQueryId := nextQueryId c; queries := queries c;
     seq := seq c; id := id c; agent := agent c; debug := debug c;
     state := state c; socket := socket c; canSend := canSend c;
     bulk := bulk c; bound := bound c; error_listener := error_listener c;
     next_ref := next_ref c; trace := trace c |}.
Definition set_nextQueryId (x : Z) (c : Connection) : Connection :=
  {| collections := collections c; nextQueryId := x; queries := queries c;
     seq := seq c; id := id c; agent := agent c; debug := debug c;
     state := state c; socket := socket c; canSend := canSend c;
     bulk := bulk c; bound := bound c; error_listener := error_listener c;
     next_ref := next_ref c; trace := trace c |}.
Definition set_queries (x : Js.obj nat) (c : Connection) : Connection :=
  {| collections := collections c; nextQueryId := nextQueryId c;
     queries := x; seq := seq c; id := id c; agent := agent c;
     debug := debug c; state := state c; socket := socket c;
     canSend := canSend c; bulk := bulk c; bound := bound c;
     error_listener := error_listener c; next_ref := next_ref c;
     trace := trace c |}.
Definition set_seq (x : Z) (c : Connection) : Connection :=
  {| collections := collections c; nextQueryId := nextQueryId c;
     queries := queries c; seq := x; id := id c; agent := agent c;
     debug := debug c; state := state c; socket := socket c;
     canSend := canSend c; bulk := bulk c; bound := bound c;
     error_listener := error_listener c; next_ref := next_ref c;
     trace := trace c |}.
Definition set_id (x : Js.value) (c : Connection) : Connection :=
  {| collections := collections c; nextQueryId := nextQueryId c;
     queries := queries c; seq := seq c; id := x; agent := agent c;
     debug := debug c; state := state c; socket := socket c;
     canSend := canSend c; bulk := bulk c; bound := bound c;
     error_listener := error_listener c; next_ref := next_ref c;
     trace := trace c |}.
Definition set_agent (x : option nat) (c : Connection) : Connection :=
  {| collections := collections c; nextQueryId := nextQueryId c;
     queries := queries c; seq := seq c; id := id c; agent := x;
     debug := debug c; state := state c; socket := socket c;
     canSend := canSend c; bulk := bulk c; bound := bound c;
     error_listener := error_listener c; next_ref := next_ref c;
     trace := trace c |}.
Definition set_debug (x : bool) (c : Connection) : Connection :=
  {| collections := collections c; nextQueryId := nextQueryId c;
     queries := queries c; seq := seq c; id := id c; agent := agent c;
     debug := x; state := state c; socket := socket c; canSend := canSend c;
     bulk := bulk c; bound := bound c; error_listener := error_listener c;
     next_ref := next_ref c; trace := trace c |}.
Definition set_state (x : string) (c : Connection) : Connection :=
  {| collections := collections c; nextQueryId := nextQueryId c;
     queries := queries c; seq := seq c; id := id c; agent := agent c;
     debug := debug c; state := x; socket := socket c; canSend := canSend c;
     bulk := bulk c; bound := bound c; error_listener := error_listener c;
     next_ref := next_ref c; trace := trace c |}.
Definition set_socket (x : option Socket) (c : Connection) : Connection :=
  {| collections := collections c; nextQueryId := nextQueryId c;
     queries := queries c; seq := seq c; id := id c; agent := agent c;
     debug := debug c; state := state c; socket := x; canSend := canSend c;
     bulk := bulk c; bound := bound c; error_listener := error_listener c;
     next_ref := next_ref c; trace := trace c |}.
Definition set_canSend (x : bool) (c : Connection) : Connection :=
  {| collections := collections c; nextQueryId := nextQueryId c;
     queries := queries c; seq := seq c; id := id c; agent := agent c;
     debug := debug c; state := state c; socket := socket c; canSend := x;
     bulk := bulk c; bound := bound c; error_listener := error_listener c;
     next_ref := next_ref c; trace := trace c |}.
Definition set_bulk (x : option (Js.obj (Js.obj (Js.obj Js.value)))) (c : Connection) : Connection :=
  {| collections := collections c; nextQueryId := nextQueryId c;
     queries := queries c; seq := seq c; id := id c; agent := agent c;
     debug := debug c; state := state c; socket := socket c;
     canSend := canSend c; bulk := x; bound := bound c;
     error_listener := error_listener c; next_ref := next_ref c;
     trace := trace c |}.
Definition set_bound (x : bool) (c : Connection) : Connection :=
  {| collections := collections c; nextQueryId := nextQueryId c;
     queries := queries c; seq := seq c; id := id c; agent := agent c;
     debug := debug c; state := state c; socket := socket c;
     canSend := canSend c; bulk := bulk c; bound := x;
     error_listener := error_listener c; next_ref := next_ref c;
     trace := trace c |}.
Definition set_error_listener (x : bool) (c : Connection) : Connection :=
  {| collections := collections c; nextQueryId := nextQueryId c;
     queries := queries c; seq := seq c; id := id c; agent := agent c;
     debug := debug c; state := state c; socket := socket c;
     canSend := canSend c; bulk := bulk c; bound := bound c;
     error_listener := x; next_ref := next_ref c; trace := trace c |}.
Definition set_next_ref (x : nat) (c : Connection) : Connection :=
  {| collections := collections c; nextQueryId := nextQueryId c;
     queries := queries c; seq := seq c; id := id c; agent := agent c;
     debug := debug c; state := state c; socket := socket c;
     canSend := canSend c; bulk := bulk c; bound := bound c;
     error_listener := error_listener c; next_ref := x; trace := trace c |}.
Definition set_trace (x : list Effect) (c : Connection) : Connection :=
  {| collections := collections c; nextQueryId := nextQueryId c;
     queries := queries c; seq := seq c; id := id c; agent := agent c;
     debug := debug c; state := state c; socket := socket c;
     canSend := canSend c; bulk := bulk c; bound := bound c;
     error_listener := error_listener c; next_ref := next_ref c;
     trace := x |}.

(** *** State-and-exception monad *)

Inductive completion (A : Type) : Type :=
| Normal (a : A)
| Throws (what : Arg).
Arguments Normal {A} a.
Arguments Throws {A} what.

Definition M (A : Type) : Type := Connection -> Connection * completion A.

#[global] Instance conn_ret : MRet M := fun A a c => (c, Normal a).

#[global] Instance conn_bind : MBind M := fun A B k m c =>
  match m c with
  | (c', Normal a) => k a c'
  | (c', Throws e) => (c', Throws e)
  end.

Definition throw {A : Type} (e : Arg) : M A := fun c => (c, Throws e).

Definition gets {A : Type} (f : Connection -> A) : M A := fun c => (c, Normal (f c)).

Definition modify (f : Connection -> Connection) : M unit := fun c => (f c, Normal tt).

Definition when (b : bool) (m : M unit) : M unit := if b then m else mret tt.

(** [for (x of xs) body(x)], stopping at the first exception. *)
Fixpoint for_each {A : Type} (xs : list A) (body : A -> M unit) : M unit :=
  match xs with
  | [] => mret tt
  | x :: rest => body x ;; for_each rest body
  end.

Definition exec {A : Type} (m : M A) (c : Connection) : Connection := fst (m c).

Definition outcome {A : Type} (m : M A) (c : Connection) : completion A := snd (m c).

(** Record one call on a collaborator. *)
Definition effect (e : Effect) : M unit :=
  modify (fun c => set_trace (trace c ++ [e]) c).

(** [try { m } catch (err) { handler(err) }] *)
Definition try_catch (m : M unit) (handler : Arg -> M unit) : M unit :=
  fun c =>
    match m c with
    | (c', Normal _) => (c', Normal tt)
    | (c', Throws e) => handler e c'
    end.

(** [new Doc(..)], [new Query(..)]: a fresh object identity. *)
Definition fresh : M nat :=
  fun c => (set_next_ref (S (next_ref c)) c, Normal (next_ref c)).

(** *** Methods *)

(** [EventEmitter.emit]. The listeners are collaborators; Node's emitter
    throws the event's argument when ['error'] is emitted and no listener
    for it is registered. *)
Definition emit (event : string) (args : list Arg) : M unit :=
  effect (Emit event args) ;;
  listening ← gets error_listener;
  if String.eqb event "error" && negb listening
  then throw (hd (AVal Js.Undefined) args)
  else mret tt.

Definition connectionState (socket : Socket) : string :=
  if Js.is_num 0 (readyState socket) || Js.is_num 1 (readyState socket)
  then "connecting"
  else "disconnected".

Definition _reset : M unit :=
  modify (set_seq 1) ;;
  modify (set_id Js.Null) ;;
  modify (set_agent None).

Definition startBulk : M unit :=
  b ← gets bulk;
  match b with
  | None => modify (set_bulk (Some []))
  | Some _ => mret tt
  end.

Definition send (message : Js.value) : M unit :=
  d ← gets debug;
  when d (effect (ConsoleLog "SEND" message)) ;;
  emit "send" [AVal message] ;;
  s ← gets socket;
  match s with
  | Some s => effect (SocketSend (sock_ref s) message)
  | None => throw (AErr TypeError)
  end.

(** The locals of [_sendBulk] while its loop runs. *)
Record BulkScan : Type := {
  ids : list string;
  versions : Js.obj Js.value;
  versionsCount : Z;
  versionId : option string
}.

Definition scan_start : BulkScan :=
  {| ids := []; versions := []; versionsCount := 0; versionId := None |}.

(** One turn of [for (let id in values)]. *)
Definition scan_step (acc : BulkScan) (entry : string * Js.value) : BulkScan :=
  let (id, value) := entry in
  if Js.nullish value
  then {| ids := ids acc ++ [id];
          versions := versions acc;
          versionsCount := versionsCount acc;
          versionId := versionId acc |}
  else {| ids := ids acc;
          versions := Js.obj_set id value (versions acc);
          versionsCount := versionsCount acc + 1;
          versionId := Some id |}.

Definition _sendBulk (action collection : string)
    (values : option (Js.obj Js.value)) : M unit :=
  match values with
  | None => mret tt
  | Some values =>
      let acc := fold_left scan_step values scan_start in
      (if (length (ids acc) =? 1)%nat then
         send (Js.Obj [("a", Js.Str action); ("c", Js.Str collection);
                       ("d", Js.Str (hd "" (ids acc)))])
       else if negb (length (ids acc) =? 0)%nat then
         send (Js.Obj [("a", Js.Str ("b" +:+ action)); ("c", Js.Str collection);
                       ("b", Js.Arr (map Js.Str (ids acc)))])
       else mret tt) ;;
      (if (versionsCount acc =? 1)%Z then
         let versionId := default "undefined" (versionId acc) in
         let version := default Js.Undefined (Js.obj_get versionId (versions acc)) in
         send (Js.Obj [("a", Js.Str action); ("c", Js.Str collection);
                       ("d", Js.Str versionId); ("v", version)])
       else if negb (versionsCount acc =? 0)%Z then
         send (Js.Obj [("a", Js.Str ("b" +:+ action)); ("c", Js.Str collection);
                       ("b", Js.Obj (versions acc))])
       else mret tt)
  end.

Definition endBulk : M unit :=
  b ← gets bulk;
  match b with
  | Some b =>
      for_each b (fun entry : string * Js.obj (Js.obj Js.value) =>
        let (collection, actions) := entry in
        _sendBulk "f" collection (Js.obj_get "f" actions) ;;
        _sendBulk "s" collection (Js.obj_get "s" actions) ;;
        _sendBulk "u" collection (Js.obj_get "u" actions))
  | None => mret tt
  end ;;
  modify (set_bulk None).

(** Set the connection's state. *)
Definition _setState (newState : string) (reason : Js.value) : M unit :=
  st ← gets state;
  if String.eqb st newState then mret tt
  else if (String.eqb newState "connecting"
           && negb (String.eqb st "disconnected")
           && negb (String.eqb st "stopped")
           && negb (String.eqb st "closed"))
          || (String.eqb newState "connected"
              && negb (String.eqb st "connecting"))
  then
    emit "error"
      [AErr (ShareDBError 5007
               ("Cannot transition directly from " +:+ st +:+ " to " +:+ newState))]
  else
    modify (set_state newState) ;;
    modify (set_canSend (String.eqb newState "connected")) ;;
    when (String.eqb newState "disconnected"
          || String.eqb newState "stopped"
          || String.eqb newState "closed") _reset ;;
    startBulk ;;
    qs ← gets queries;
    for_each qs (fun entry =>
      effect (QueryCall (snd entry) "_onConnectionStateChanged" [])) ;;
    cs ← gets collections;
    for_each cs (fun entry =>
      for_each (snd entry) (fun d =>
        effect (DocCall (snd d) "_onConnectionStateChanged" []))) ;;
    endBulk ;;
    emit newState [AVal reason] ;;
    emit "state" [AVal (Js.Str newState); AVal reason].

(** The registry of documents is read and written under the document's
    collection and id as under any key: see [Js.prototype_member] for the
    names under which the source meets an inherited member instead. *)
Definition _addDoc (doc : Doc) : M unit :=
  cs ← gets collections;
  match Js.obj_get (doc_collection doc) cs with
  | None =>
      modify (set_collections
                (Js.obj_set (doc_collection doc)
                   (Js.obj_set (doc_id doc) (doc_ref doc) []) cs))
  | Some docs =>
      match Js.obj_get (doc_id doc) docs with
      | Some r =>
          if (r =? doc_ref doc)%nat then mret tt
          else modify (set_collections
                         (Js.obj_set (doc_collection doc)
                            (Js.obj_set (doc_id doc) (doc_ref doc) docs) cs))
      | None =>
          modify (set_collections
                    (Js.obj_set (doc_collection doc)
                       (Js.obj_set (doc_id doc) (doc_ref doc) docs) cs))
      end
  end.

(** Returns [isDuplicate] in bulk mode and [undefined] ([None]) otherwise. *)
Definition _sendAction (action : string) (doc : Doc) (version : Js.value)
    : M (option bool) :=
  _addDoc doc ;;
  b ← gets bulk;
  match b with
  | Some b =>
      let actions := default [] (Js.obj_get (doc_collection doc) b) in
      let versions := default [] (Js.obj_get action actions) in
      let isDuplicate := Js.obj_has (doc_id doc) versions in
      modify (set_bulk
                (Some (Js.obj_set (doc_collection doc)
                         (Js.obj_set action
                            (Js.obj_set (doc_id doc) version versions) actions)
                         b))) ;;
      mret (Some isDuplicate)
  | None =>
      send (Js.Obj [("a", Js.Str action); ("c", Js.Str (doc_collection doc));
                    ("d", Js.Str (doc_id doc)); ("v", version)]) ;;
      mret None
  end.

Definition sendFetch (doc : Doc) : M (option bool) :=
  _sendAction "f" doc (doc_version doc).

Definition sendSubscribe (doc : Doc) : M (option bool) :=
  _sendAction "s" doc (doc_version doc).

Definition sendUnsubscribe (doc : Doc) : M (option bool) :=
  _sendAction "u" doc Js.Undefined.

(** [op.src] on an [op] that is [null] or [undefined] throws, after the
    document has been registered. *)
Definition sendOp (doc : Doc) (op : Js.value) : M unit :=
  _addDoc doc ;;
  if Js.nullish op then throw (AErr TypeError) else
  let optional (k : string) : Js.obj Js.value :=
    if Js.truthy (Js.prop op k) then [(k, Js.prop op k)] else [] in
  send (Js.Obj ([("a", Js.Str "op"); ("c", Js.Str (doc_collection doc));
                 ("d", Js.Str (doc_id doc)); ("v", doc_version doc);
                 ("src", Js.prop op "src"); ("seq", Js.prop op "seq")]
                ++ optional "op" ++ optional "create" ++ optional "del")).

Definition getExisting (collection id : Js.value) (c : Connection) : option nat :=
  match Js.obj_get (Js.to_string collection) (collections c) with
  | Some docs => Js.obj_get (Js.to_string id) docs
  | None => None
  end.

Definition get (collection id : string) : M nat :=
  cs ← gets collections;
  let docs := default [] (Js.obj_get collection cs) in
  match Js.obj_get id docs with
  | Some doc => mret doc
  | None =>
      doc ← fresh;
      effect (NewDoc doc collection id) ;;
      modify (set_collections
                (Js.obj_set collection (Js.obj_set id doc docs) cs)) ;;
      emit "doc" [ADoc doc] ;;
      mret doc
  end.

Definition _destroyDoc (doc : Doc) : M unit :=
  cs ← gets collections;
  match Js.obj_get (doc_collection doc) cs with
  | None => mret tt
  | Some docs =>
      let docs := Js.obj_delete (doc_id doc) docs in
      if Js.hasKeys docs
      then modify (set_collections (Js.obj_set (doc_collection doc) docs cs))
      else modify (set_collections (Js.obj_delete (doc_collection doc) cs))
  end.

(** [this.nextQueryId++] is exact as long as the counter is below 2^53. *)
Definition _createQuery (action collection : string) (q options : Js.value)
    (callback : nat) : M nat :=
  id ← gets nextQueryId;
  modify (set_nextQueryId (id + 1)) ;;
  query ← fresh;
  effect (NewQuery query action id collection q options callback) ;;
  qs ← gets queries;
  modify (set_queries (Js.obj_set (Js.to_string (Js.Num id)) query qs)) ;;
  effect (QueryCall query "send" []) ;;
  mret query.

Definition _destroyQuery (query : Query) : M unit :=
  qs ← gets queries;
  modify (set_queries (Js.obj_delete (Js.to_string (query_id query)) qs)).

Definition createFetchQuery (collection : string) (q options : Js.value)
    (callback : nat) : M nat :=
  _createQuery "qf" collection q options callback.

Definition createSubscribeQuery (collection : string) (q options : Js.value)
    (callback : nat) : M nat :=
  _createQuery "qs" collection q options callback.

(** *** Inbound dispatch *)

Definition _handleBulkMessage (message : Js.value) (method : string) : M unit :=
  let forward (id : Js.value) (args : list Arg) : M unit :=
    doc ← gets (getExisting (Js.prop message "c") id);
    match doc with
    | Some doc => effect (DocCall doc method args)
    | None => mret tt
    end in
  let data := Js.prop message "data" in
  let b := Js.prop message "b" in
  if Js.truthy data then
    for_each (Js.enum_keys data) (fun id =>
      forward (Js.Str id)
        [AVal (Js.prop message "error"); AVal (Js.prop data id)])
  else match b with
       | Js.Arr items =>
           for_each items (fun id =>
             forward id [AVal (Js.prop message "error")])
       | _ =>
           if Js.truthy b then
             for_each (Js.enum_keys b) (fun id =>
               forward (Js.Str id) [AVal (Js.prop message "error")])
           else effect (ConsoleError "Invalid bulk message" message)
       end.

Section Dispatch.

(** The OT type registry [require('../types')] is outside the sources:
    [types.map] from type name to type object, and [types.defaultType]. *)
Variable types_map : Js.obj nat.
Variable types_defaultType : nat.

(** [types.map[name] !== types.defaultType] *)
Definition not_default_type (name : Js.value) : bool :=
  match Js.obj_get (Js.to_string name) types_map with
  | Some t => negb (t =? types_defaultType)%nat
  | None => true
  end.

(** [switch (message.a)] compares with each case label in turn. After
    [delete message.error] the name [message] stands for the object without
    its envelope, which is also what [err.data] refers to. *)
Definition handleMessage (message : Js.value) : M unit :=
  if Js.nullish message then throw (AErr TypeError) else
  let error := Js.prop message "error" in
  let message := if Js.truthy error then Js.delete_prop message "error" else message in
  let err := if Js.truthy error
             then AErr (WrappedError (Js.prop error "message") (Js.prop error "code") message)
             else AVal Js.Null in
  let with_query (k : nat -> M unit) : M unit :=
    query ← gets (fun c => Js.obj_get (Js.to_string (Js.prop message "id")) (queries c));
    match query with
    | Some query => k query
    | None => mret tt
    end in
  let with_doc (k : nat -> M unit) : M unit :=
    doc ← gets (getExisting (Js.prop message "c") (Js.prop message "d"));
    match doc with
    | Some doc => k doc
    | None => mret tt
    end in
  let unrecognized := effect (ConsoleWarn "Ignoring unrecognized message" message) in
  match Js.prop message "a" with
  | Js.Str a =>
      if String.eqb a "init" then
        (if negb (Js.is_num 1 (Js.prop message "protocol")) then
           emit "error" [AErr (ShareDBError 4019 "Invalid protocol version")]
         else if not_default_type (Js.prop message "type") then
           emit "error" [AErr (ShareDBError 4020 "Invalid default type")]
         else if negb (Js.is_string (Js.prop message "id")) then
           emit "error" [AErr (ShareDBError 4021 "Invalid client id")]
         else
           modify (set_id (Js.prop message "id")) ;;
           _setState "connected" Js.Undefined)
      else if String.eqb a "qf" then
          with_query (fun query =>
            effect (QueryCall query "_handleFetch"
                      [err; AVal (Js.prop message "data"); AVal (Js.prop message "extra")]))
      else if String.eqb a "qs" then
          with_query (fun query =>
            effect (QueryCall query "_handleSubscribe"
                      [err; AVal (Js.prop message "data"); AVal (Js.prop message "extra")]))
      else if String.eqb a "qu" then mret tt
      else if String.eqb a "q" then
          with_query (fun query =>
            if Js.truthy error then effect (QueryCall query "_handleError" [err])
            else
              when (Js.truthy (Js.prop message "diff"))
                (effect (QueryCall query "_handleDiff" [AVal (Js.prop message "diff")])) ;;
              when (Js.has_own message "extra")
                (effect (QueryCall query "_handleExtra" [AVal (Js.prop message "extra")])))
      else if String.eqb a "bf" then _handleBulkMessage message "_handleFetch"
      else if String.eqb a "bs" then _handleBulkMessage message "_handleSubscribe"
      else if String.eqb a "bu" then _handleBulkMessage message "_handleUnsubscribe"
      else if String.eqb a "f" then
          with_doc (fun doc =>
            effect (DocCall doc "_handleFetch" [err; AVal (Js.prop message "data")]))
      else if String.eqb a "s" then
          with_doc (fun doc =>
            effect (DocCall doc "_handleSubscribe" [err; AVal (Js.prop message "data")]))
      else if String.eqb a "u" then
          with_doc (fun doc => effect (DocCall doc "_handleUnsubscribe" [err]))
      else if String.eqb a "op" then
          with_doc (fun doc => effect (DocCall doc "_handleOp" [err; AVal message]))
      else unrecognized
  | _ => unrecognized
  end.

(** *** Socket handlers installed by [bindToSocket] *)

(** What arrives in [event.data]: text that [JSON.parse] rejects, or the
    decoded value (parsed from text or passed as an object). *)
Inductive SocketData : Type :=
| Unparsable (text : string)
| Decoded (data : Js.value).

(** [socket.onmessage]. The listeners of ['receive'] get the mutable
    request [{data}]; [after_receive] is what they leave in [request.data]. *)
Definition socket_onmessage (event : SocketData)
    (after_receive : Js.value -> Js.value) : M unit :=
  match event with
  | Unparsable text => effect (ConsoleWarn "Failed to parse message" (Js.Str text))
  | Decoded data =>
      d ← gets debug;
      when d (effect (ConsoleLog "RECV" data)) ;;
      emit "receive" [AVal (Js.Obj [("data", data)])] ;;
      let data := after_receive data in
      if negb (Js.truthy data) then mret tt
      else try_catch (handleMessage data)
             (fun err => effect (NextTickEmit "error" [err]))
  end.

Definition socket_onopen : M unit :=
  _setState "connecting" Js.Undefined.

Definition socket_onerror (err : Js.value) : M unit :=
  emit "connection error" [AVal err].

Definition socket_onclose (reason : Js.value) : M unit :=
  if Js.is_str "closed" reason || Js.is_str "Closed" reason then
    _setState "closed" reason
  else if Js.is_str "stopped" reason || Js.is_str "Stopped by server" reason then
    _setState "stopped" reason
  else
    _setState "disconnected" reason.

(** [socket.close()] on a socket whose handlers this connection installed. *)
Definition socket_close (s : Socket) : M unit :=
  effect (SocketClose (sock_ref s)) ;;
  installed ← gets bound;
  match close_fires s with
  | Some reason => when installed (socket_onclose reason)
  | None => mret tt
  end.

Definition bindToSocket (socket' : Socket) : M unit :=
  old ← gets socket;
  match old with
  | Some old =>
      socket_close old ;;
      effect (SocketUnbind (sock_ref old)) ;;
      modify (set_bound false)
  | None => mret tt
  end ;;
  modify (set_socket (Some socket')) ;;
  _setState (connectionState socket') Js.Undefined ;;
  modify (set_canSend false) ;;
  effect (SocketBind (sock_ref socket')) ;;
  modify (set_bound true).

(** The fields as the constructor assigns them before it calls
    [bindToSocket]. *)
Definition constructed (socket : Socket) : Connection :=
  {| collections := [];
     nextQueryId := 1;
     queries := [];
     seq := 1;
     id := Js.Null;
     agent := None;
     debug := false;
     state := connectionState socket;
     socket := None;
     canSend := false;
     bulk := None;
     bound := false;
     error_listener := false;
     next_ref := 0;
     trace := [] |}.

(** [new Connection(socket)] *)
Definition new_Connection (socket : Socket) : Connection :=
  exec (bindToSocket socket) (constructed socket).

(** [connection.close()] *)
Definition close : M unit :=
  s ← gets socket;
  match s with
  | Some s => socket_close s
  | None => throw (AErr TypeError)
  end.

(** *** Runs of public operations *)

Inductive Op : Type :=
| Call_bindToSocket (socket : Socket)
| Call_handleMessage (message : Js.value)
| Call__handleBulkMessage (message : Js.value) (method : string)
| Call__reset
| Call__setState (newState : string) (reason : Js.value)
| Call_startBulk
| Call_endBulk
| Call__sendBulk (action collection : string) (values : option (Js.obj Js.value))
| Call__sendAction (action : string) (doc : Doc) (version : Js.value)
| Call_sendFetch (doc : Doc)
| Call_sendSubscribe (doc : Doc)
| Call_sendUnsubscribe (doc : Doc)
| Call_sendOp (doc : Doc) (op : Js.value)
| Call_send (message : Js.value)
| Call_close
| Call_get (collection id : string)
| Call__destroyDoc (doc : Doc)
| Call__addDoc (doc : Doc)
| Call_createFetchQuery (collection : string) (q options : Js.value) (callback : nat)
| Call_createSubscribeQuery (collection : string) (q options : Js.value) (callback : nat)
| Call__destroyQuery (query : Query)
| Call_on_error
  (** [connection.on('error', listener)] *)
| Call_removeAllListeners_error
| Socket_onopen
| Socket_onmessage (event : SocketData) (after_receive : Js.value -> Js.value)
| Socket_onerror (err : Js.value)
| Socket_onclose (reason : Js.value).

Definition discard {A : Type} (m : M A) : M unit := m ;; mret tt.

Definition run_op (op : Op) : M unit :=
  match op with
  | Call_bindToSocket s => bindToSocket s
  | Call_handleMessage m => handleMessage m
  | Call__handleBulkMessage m method => _handleBulkMessage m method
  | Call__reset => _reset
  | Call__setState newState reason => _setState newState reason
  | Call_startBulk => startBulk
  | Call_endBulk => endBulk
  | Call__sendBulk a c values => _sendBulk a c values
  | Call__sendAction a doc v => discard (_sendAction a doc v)
  | Call_sendFetch doc => discard (sendFetch doc)
  | Call_sendSubscribe doc => discard (sendSubscribe doc)
  | Call_sendUnsubscribe doc => discard (sendUnsubscribe doc)
  | Call_sendOp doc op => sendOp doc op
  | Call_send m => send m
  | Call_close => close
  | Call_get collection id => discard (get collection id)
  | Call__destroyDoc doc => _destroyDoc doc
  | Call__addDoc doc => _addDoc doc
  | Call_createFetchQuery c q o cb => discard (createFetchQuery c q o cb)
  | Call_createSubscribeQuery c q o cb => discard (createSubscribeQuery c q o cb)
  | Call__destroyQuery query => _destroyQuery query
  | Call_on_error => modify (set_error_listener true)
  | Call_removeAllListeners_error => modify (set_error_listener false)
  | Socket_onopen =>
      installed ← gets bound; when installed socket_onopen
  | Socket_onmessage event after_receive =>
      installed ← gets bound; when installed (socket_onmessage event after_receive)
  | Socket_onerror err =>
      installed ← gets bound; when installed (socket_onerror err)
  | Socket_onclose reason =>
      installed ← gets bound; when installed (socket_onclose reason)
  end.

(** Each operation runs to its return or to its exception; the next one
    starts from the state it left. *)
Definition run_ops (ops : list Op) (c : Connection) : Connection :=
  fold_left (fun c op => exec (run_op op) c) ops c.

Definition reachable (c : Connection) : Prop :=
  exists (socket : Socket) (ops : list Op),
    c = run_ops ops (new_Connection socket).

End Dispatch.

End ClientConnection.

(** ** The pub/sub core ([pubsub.ts]) *)

Module PubSubCore.

(** An [OpStream], known to the class by the [id] it assigns. *)
Record OpStream : Type := { stream_id : Z }.

(** A function queued with [process.nextTick]: the closure of [subscribe]
    over [channel] and [callback]. *)
Inductive Task : Type :=
| CreateStreamAndCallBack (channel : string) (callback : nat).

(** One call that leaves the class. User callbacks are named by a number. *)
Inductive Effect : Type :=
| Transport_subscribe (channel : string) (callback : nat)
  (** [this._subscribe(channel, k)], [k] closing over [channel] and [callback] *)
| Transport_unsubscribe (channel : string)
| Transport_publish (channels : nat) (contents : list string)
    (data : Js.value) (callback : nat)
  (** [this._publish(channels, data, callback)]: the array passed, and what
      it holds at the call *)
| NewOpStream (stream : OpStream) (channel : string)
  (** [new OpStream()] with its one-shot ['close'] handler *)
| CallBack (callback : nat) (err : Js.value) (stream : option OpStream).

Record PubSub : Type := {
  (* [None] is [undefined] *)
  prefix : option string;
  (* both doubles in the source, which count exactly below 2^53 *)
  nextStreamId : Z;
  streamsCount : Z;
  (* channel -> id -> stream *)
  streams : gmap string (gmap Z OpStream);
  (* channel -> true *)
  subscribed : gmap string bool;
  (* the arrays of channel names that callers hold, by reference *)
  arrays : gmap nat (list string);
  (* callbacks queued with [process.nextTick], oldest first *)
  ticks : list Task;
  (* calls on collaborators, oldest first *)
  trace : list Effect
}.

(** Field updates. *)
Definition set_prefix (x : option string) (p : PubSub) : PubSub :=
  {| prefix := x; nextStreamId := nextStreamId p;
     streamsCount := streamsCount p; streams := streams p;
     subscribed := subscribed p; arrays := arrays p; ticks := ticks p;
     trace := trace p |}.
Definition set_nextStreamId (x : Z) (p : PubSub) : PubSub :=
  {| prefix := prefix p; nextStreamId := x; streamsCount := streamsCount p;
     streams := streams p; subscribed := subscribed p; arrays := arrays p;
     ticks := ticks p; trace := trace p |}.
Definition set_streamsCount (x : Z) (p : PubSub) : PubSub :=
  {| prefix := prefix p; nextStreamId := nextStreamId p; streamsCount := x;
     streams := streams p; subscribed := subscribed p; arrays := arrays p;
     ticks := ticks p; trace := trace p |}.
Definition set_streams (x : gmap string (gmap Z OpStream)) (p : PubSub) : PubSub :=
  {| prefix := prefix p; nextStreamId := nextStreamId p;
     streamsCount := streamsCount p; streams := x;
     subscribed := subscribed p; arrays := arrays p; ticks := ticks p;
     trace := trace p |}.
Definition set_subscribed (x : gmap string bool) (p : PubSub) : PubSub :=
  {| prefix := prefix p; nextStreamId := nextStreamId p;
     streamsCount := streamsCount p; streams := streams p; subscribed := x;
     arrays := arrays p; ticks := ticks p; trace := trace p |}.
Definition set_arrays (x : gmap nat (list string)) (p : PubSub) : PubSub :=
  {| prefix := prefix p; nextStreamId := nextStreamId p;
     streamsCount := streamsCount p; streams := streams p;
     subscribed := subscribed p; arrays := x; ticks := ticks p;
     trace := trace p |}.
Definition set_ticks (x : list Task) (p : PubSub) : PubSub :=
  {| prefix := prefix p; nextStreamId := nextStreamId p;
     streamsCount := streamsCount p; streams := streams p;
     subscribed := subscribed p; arrays := arrays p; ticks := x;
     trace := trace p |}.
Definition set_trace (x : list Effect) (p : PubSub) : PubSub :=
  {| prefix := prefix p; nextStreamId := nextStreamId p;
     streamsCount := streamsCount p; streams := streams p;
     subscribed := subscribed p; arrays := arrays p; ticks := ticks p;
     trace := x |}.

Definition effect (e : Effect) (p : PubSub) : PubSub :=
  set_trace (trace p ++ [e]) p.

(** [new PubSub(options)] *)
Definition new_PubSub (options_prefix : option string) : PubSub :=
  {| prefix := options_prefix;
     nextStreamId := 1;
     streamsCount := 0;
     streams := ∅;
     subscribed := ∅;
     arrays := ∅;
     ticks := [];
     trace := [] |}.

(** [if (this.prefix)]: the prefix when it is a non-empty string. *)
Definition truthy_prefix (p : PubSub) : option string :=
  match prefix p with
  | Some pre => if String.eqb pre "" then None else Some pre
  | None => None
  end.

(** [this.prefix + ' ' + channel] when a prefix applies. *)
Definition prefixed (p : PubSub) (channel : string) : string :=
  match truthy_prefix p with
  | Some pre => pre +:+ " " +:+ channel
  | None => channel
  end.

(** [for (let i = 0; i < channels.length; i++) channels[i] = prefix + ' ' + channels[i]],
    from index [i] with [n] turns left. *)
Fixpoint prefix_loop (pre : string) (i n : nat) (channels : list string) : list string :=
  match n with
  | O => channels
  | S n =>
      match channels !! i with
      | Some channel => prefix_loop pre (S i) n (<[i := pre +:+ " " +:+ channel]> channels)
      | None => channels
      end
  end.

(** [channels] is the caller's array, passed by reference. *)
Definition publish (channels : nat) (data : Js.value) (callback : nat)
    (p : PubSub) : PubSub :=
  let p :=
    match truthy_prefix p with
    | Some pre =>
        set_arrays
          (alter (fun l => prefix_loop pre 0 (length l) l) channels (arrays p)) p
    | None => p
    end in
  effect (Transport_publish channels (default [] (arrays p !! channels)) data callback) p.

(** Modelled from the spec: [util.hasKeys] of [src/lib/util] is not among
    the sources; "if the inner map is now empty" is its negation. *)
Definition hasKeys (map : gmap Z OpStream) : bool :=
  negb (bool_decide (map = ∅)).

(** [this.streams[channel]] is the channel's own map, as it is for every
    name but those of [Js.prototype_member]. The two increments are exact
    as long as the counters are below 2^53. *)
Definition _createStream (channel : string) (p : PubSub) : PubSub * OpStream :=
  let stream := {| stream_id := nextStreamId p |} in
  let p := effect (NewOpStream stream channel) p in
  let p := set_streamsCount (streamsCount p + 1) p in
  let map := default ∅ (streams p !! channel) in
  let p := set_nextStreamId (nextStreamId p + 1) p in
  let p := set_streams (<[channel := <[stream_id stream := stream]> map]> (streams p)) p in
  (p, stream).

(** A channel that has no map of its own is one without a map, as it is
    for every name but those of [Js.prototype_member]. *)
Definition _removeStream (channel : string) (stream : OpStream) (p : PubSub) : PubSub :=
  match streams p !! channel with
  | None => p
  | Some map =>
      let p := set_streamsCount (streamsCount p - 1) p in
      let map := delete (stream_id stream) map in
      let p := set_streams (<[channel := map]> (streams p)) p in
      if hasKeys map then p
      else
        let p := set_streams (delete channel (streams p)) p in
        let p := set_subscribed (delete channel (subscribed p)) p in
        effect (Transport_unsubscribe channel) p
  end.

(** [if (this.subscribed[channel])]: the channel's own flag, and for a
    channel without one what the object inherits under that name. *)
Definition subscribed_flag (p : PubSub) (channel : string) : bool :=
  match subscribed p !! channel with
  | Some flag => flag
  | None => Js.prototype_member channel
  end.

Definition subscribe (channel : string) (callback : nat) (p : PubSub) : PubSub :=
  let channel := prefixed p channel in
  if subscribed_flag p channel
  then set_ticks (ticks p ++ [CreateStreamAndCallBack channel callback]) p
  else effect (Transport_subscribe channel callback) p.

(** The function [subscribe] queued, when the event loop runs it. *)
Definition run_task (t : Task) (p : PubSub) : PubSub :=
  match t with
  | CreateStreamAndCallBack channel callback =>
      let (p, stream) := _createStream channel p in
      effect (CallBack callback Js.Null (Some stream)) p
  end.

(** The event loop takes the oldest queued function. *)
Definition run_tick (p : PubSub) : PubSub :=
  match ticks p with
  | [] => p
  | t :: rest => run_task t (set_ticks rest p)
  end.

(** The transport calls the function [subscribe] handed to [_subscribe]. *)
Definition subscribe_done (channel : string) (callback : nat) (err : Js.value)
    (p : PubSub) : PubSub :=
  if Js.truthy err then effect (CallBack callback err None) p
  else
    let p := set_subscribed (<[channel := true]> (subscribed p)) p in
    let (p, stream) := _createStream channel p in
    effect (CallBack callback Js.Null (Some stream)) p.

(** The one-shot ['close'] handler that [_createStream] registered. *)
Definition stream_closed (channel : string) (stream : OpStream) (p : PubSub) : PubSub :=
  _removeStream channel stream p.

(** The transport calls the function [_removeStream] handed to
    [_unsubscribe]: it rethrows an error and touches no field. *)
Definition unsubscribe_done (err : Js.value) (p : PubSub) : PubSub := p.

End PubSubCore.

(** ** The state machine as the specification words it *)

Module StateMachineSpec.

(** "to 'connecting' from any state other than 'disconnected', 'stopped',
    or 'closed', or to 'connected' from any state other than
    'connecting'" *)
Definition illegal_transition (old new : string) : Prop :=
  (new = "connecting" /\ old <> "disconnected" /\ old <> "stopped" /\ old <> "closed")
  \/ (new = "connected" /\ old <> "connecting").

(** The three states a transport close leads into. *)
Definition closing_state (new : string) : Prop :=
  new = "disconnected" \/ new = "closed" \/ new = "stopped".

(** The structured error of an illegal transition. *)
Definition transition_error (old new : string) : ClientConnection.JsError :=
  ClientConnection.ShareDBError 5007
    ("Cannot transition directly from " +:+ old +:+ " to " +:+ new).

End StateMachineSpec.

(** ** The bulk flush as the specification words it *)

Module BulkSpec.










End BulkSpec.

(** ** Vocabulary of the proofs *)

Module Reasoning.

Import ClientConnection.

(** A method [preserves] a property of the state when the property
    survives the method's run, whether the run returns or throws. *)
Definition preserves {A : Type} (P : Connection -> Prop) (m : M A) : Prop :=
  forall c, P c -> P (exec m c).

(** Every field apart from the bulk accumulator and the trace. *)
Definition fields (c : Connection) :=
  (collections c, nextQueryId c, queries c, seq c, id c, agent c, debug c,
   state c, socket c, canSend c, bound c, error_listener c, next_ref c).

(** [keeps m]: whatever [fields] holds before [m] it holds after. *)
Definition keeps {A : Type} (m : M A) : Prop :=
  forall x, preserves (fun c => fields c = x) m.

(** The part of [_setState] that follows the assignments: the bulk window
    around the notifications, then the two events. *)
Definition announce (newState : string) (reason : Js.value) : M unit :=
  startBulk ;;
  qs ← gets queries;
  for_each qs (fun entry =>
    effect (QueryCall (snd entry) "_onConnectionStateChanged" [])) ;;
  cs ← gets collections;
  for_each cs (fun entry =>
    for_each (snd entry) (fun d =>
      effect (DocCall (snd d) "_onConnectionStateChanged" []))) ;;
  endBulk ;;
  emit newState [AVal reason] ;;
  emit "state" [AVal (Js.Str newState); AVal reason].

(** One direction of "canSend iff connected". *)
Definition live_only_when_connected (c : Connection) : Prop :=
  canSend c = true -> state c = "connected".

(** What a document handler must not be given as its error argument when
    the reply carried an error envelope. *)
Definition forwards_no_error (e : Effect) : Prop :=
  match e with
  | DocCall _ _ (AVal Js.Undefined :: _) => True
  | ConsoleError _ _ => True
  | _ => False
  end.

(** The frames handed to the socket, oldest first. *)
Definition sent_frames (t : list Effect) : list Js.value :=
  flat_map (fun e => match e with
                     | SocketSend _ frame => [frame]
                     | _ => []
                     end) t.

(** The messages [_sendBulk] passes to [send], read off its two
    conditionals. *)
Definition scan_frames (action collection : string) (values : Js.obj Js.value)
    : list Js.value :=
  let acc := fold_left scan_step values scan_start in
  (if (length (ids acc) =? 1)%nat then
     [Js.Obj [("a", Js.Str action); ("c", Js.Str collection);
              ("d", Js.Str (hd "" (ids acc)))]]
   else if negb (length (ids acc) =? 0)%nat then
     [Js.Obj [("a", Js.Str ("b" +:+ action)); ("c", Js.Str collection);
              ("b", Js.Arr (map Js.Str (ids acc)))]]
   else [])
  ++
  (if (versionsCount acc =? 1)%Z then
     let versionId := default "undefined" (versionId acc) in
     let version := default Js.Undefined (Js.obj_get versionId (versions acc)) in
     [Js.Obj [("a", Js.Str action); ("c", Js.Str collection);
              ("d", Js.Str versionId); ("v", version)]]
   else if negb (versionsCount acc =? 0)%Z then
     [Js.Obj [("a", Js.Str ("b" +:+ action)); ("c", Js.Str collection);
              ("b", Js.Obj (versions acc))]]
   else []).

(** [c'] differs from [c] by the frames [fs] going out, and by what the
    listeners of ['send'] and the console were told. *)
Definition sends (fs : list Js.value) (c c' : Connection) : Prop :=
  fields c' = fields c
  /\ bulk c' = bulk c
  /\ sent_frames (trace c') = sent_frames (trace c) ++ fs.

(** [m] returns normally on a connection with a socket and sends the
    frames [fs]. *)
Definition emits (m : M unit) (fs : list Js.value) : Prop :=
  forall c s, socket c = Some s ->
    exists c', m c = (c', Normal tt) /\ sends fs c c'.

(** The frames [endBulk] sends for one entry of the accumulator and one
    action. *)
Definition frames_of (entry : string * Js.obj (Js.obj Js.value)) (action : string)
    : list Js.value :=
  match Js.obj_get action (snd entry) with
  | Some values => scan_frames action (fst entry) values
  | None => []
  end.

End Reasoning.


(** ** Concrete connections used as instances *)

Module Examples.

Import ClientConnection.

(** Sockets whose [close()] returns before any close event is delivered. *)
Definition open_socket : Socket :=
  {| sock_ref := 1; readyState := Js.Num 1; close_fires := None |}.

Definition opening_socket : Socket :=
  {| sock_ref := 4; readyState := Js.Num 0; close_fires := None |}.

Definition second_socket : Socket :=
  {| sock_ref := 2; readyState := Js.Num 1; close_fires := None |}.

Definition closed_socket : Socket :=
  {| sock_ref := 3; readyState := Js.Num 3; close_fires := None |}.

(** A type registry with one type, the default. *)
Definition types_map : Js.obj nat := [("json0", 0)].
Definition types_defaultType : nat := 0.

Definition init_message : Js.value :=
  Js.Obj [("a", Js.Str "init"); ("protocol", Js.Num 1);
          ("type", Js.Str "json0"); ("id", Js.Str "C7")].

Definition untouched (data : Js.value) : Js.value := data.

(** [new Connection(socket)] on an open socket: state ['connecting']. *)
Definition connecting : Connection := new_Connection open_socket.

(** [new Connection(socket)] on a socket that is still opening. *)
Definition opening : Connection := new_Connection opening_socket.

(** [new Connection(socket)] on a closed socket: state ['disconnected']. *)
Definition disconnected : Connection := new_Connection closed_socket.

(** The same after [connection.on('error', ..)] and the server's [init]. *)
Definition connected : Connection :=
  run_ops types_map types_defaultType
    [Call_on_error; Socket_onmessage (Decoded init_message) untouched]
    connecting.

Definition book (id : string) (ref : nat) (version : Js.value) : Doc :=
  {| doc_ref := ref; doc_collection := "books"; doc_id := id; doc_version := version |}.

(** One document and one query registered, user code holding an agent. *)
Definition busy : Connection :=
  set_agent (Some 99)
    (run_ops types_map types_defaultType
       [Call_get "books" "id1";
        Call_createSubscribeQuery "books" (Js.Obj []) Js.Null 0]
       connected).


(** A connection rebound to a fresh open socket while connected. *)
Definition rebound : Connection :=
  run_ops types_map types_defaultType [Call_bindToSocket second_socket] connected.

(** Bulk fetch replies that carry an error envelope, in the three forms. *)
Definition reply_error : Js.value :=
  Js.Obj [("code", Js.Num 4001); ("message", Js.Str "Unknown error")].

Definition bulk_reply_data : Js.value :=
  Js.Obj [("a", Js.Str "bf"); ("c", Js.Str "books");
          ("data", Js.Obj [("id1", Js.Obj [("v", Js.Num 1)])]);
          ("error", reply_error)].

Definition bulk_reply_array : Js.value :=
  Js.Obj [("a", Js.Str "bf"); ("c", Js.Str "books");
          ("b", Js.Arr [Js.Str "id1"]); ("error", reply_error)].

Definition bulk_reply_mapping : Js.value :=
  Js.Obj [("a", Js.Str "bf"); ("c", Js.Str "books");
          ("b", Js.Obj [("id1", Js.Num 1)]); ("error", reply_error)].

(** The single-document reply with the same envelope. *)
Definition single_reply : Js.value :=
  Js.Obj [("a", Js.Str "f"); ("c", Js.Str "books"); ("d", Js.Str "id1");
          ("error", reply_error)].

End Examples.

(** ** Concrete pub/sub instances *)

Module PubSubExamples.

Import PubSubCore.

(** A pub/sub with prefix "app" whose caller holds the array
    [["room"; "lobby"]] under reference 0. *)
Definition publisher : PubSub :=
  set_arrays {[ 0%nat := ["room"; "lobby"] ]} (new_PubSub (Some "app")).

(** Scenario S6 up to the transport's acknowledgement: one subscribe on
    "room", confirmed, with stream 1 open. *)
Definition one_stream : PubSub :=
  subscribe_done "room" 7 Js.Null (subscribe "room" 7 (new_PubSub None)).

End PubSubExamples.

(** ** Vocabulary of the further properties *)

Module Behaviour.

Import ClientConnection.

(** [m] returns normally and changes nothing but the trace: it only calls
    collaborators. *)
Definition only_calls {A : Type} (m : M A) : Prop :=
  forall c, exists a calls, m c = (set_trace (trace c ++ calls) c, Normal a).

(** The calls by which a change of state is announced to the registered
    queries, then to the registered documents, in enumeration order. *)
Definition notifications (c : Connection) : list Effect :=
  map (fun entry => QueryCall (snd entry) "_onConnectionStateChanged" []) (queries c)
  ++ flat_map (fun entry =>
       map (fun d => DocCall (snd d) "_onConnectionStateChanged" []) (snd entry))
       (collections c).

(** A transition [_setState] goes through with. *)
Definition accepted_transition (old new : string) : Prop :=
  old <> new /\ ~ StateMachineSpec.illegal_transition old new.

(** The fields as an accepted transition into [new] assigns them: the
    state, [canSend], and on the way into a closing state the reset. *)
Definition entered (new : string) (c : Connection) : Connection :=
  let c := set_canSend (String.eqb new "connected") (set_state new c) in
  if String.eqb new "disconnected" || String.eqb new "stopped"
     || String.eqb new "closed"
  then set_agent None (set_id Js.Null (set_seq 1 c))
  else c.

(** The frames a flush of the accumulator sends. *)
Definition flush_frames (b : option (Js.obj (Js.obj (Js.obj Js.value))))
    : list Js.value :=
  flat_map (fun entry =>
              Reasoning.frames_of entry "f" ++ Reasoning.frames_of entry "s"
              ++ Reasoning.frames_of entry "u")
    (default [] b).



(** *** Where the registries answer with their own entries *)

(** A name that no plain object inherits: a lookup under it finds an own
    property or nothing. *)
Definition plain (k : string) : Prop := Js.prototype_member k = false.








(** The document registered under a collection and an id. *)
Definition registered (c : Connection) (collection id : string) : option nat :=
  getExisting (Js.Str collection) (Js.Str id) c.

(** No collection of the registry is left without a document. *)
Definition no_empty_collection (c : Connection) : Prop :=
  Forall (fun entry => snd entry <> []) (collections c).

(** Every registered query sits under the decimal form of an id that the
    counter has passed. *)
Definition query_ids_below_counter (c : Connection) : Prop :=
  (1 <= nextQueryId c)%Z
  /\ forall k query, Js.obj_get k (queries c) = Some query ->
       exists n : Z, k = pretty n /\ (1 <= n < nextQueryId c)%Z.

End Behaviour.

(** ** Waiting for quiescence ([connection.ts], [hasPending] to [_firstQuery]) *)

Module Quiescence.

Import ClientConnection.





Section Answers.

(** What a registered object answers when it is asked [hasPending()] or
    [hasWritePending()]. *)
Variable answers : nat -> bool.







End Answers.




End Quiescence.

(** ** Runs of the pub/sub core *)

Module PubSubRuns.

Import PubSubCore.

(** One thing that happens to a pub/sub: a call of a public method, a
    tick of the event loop, the transport answering a [_subscribe], a
    caller filling an array of channel names, or a stream closing. The
    ['close'] handler of a stream is one-shot and is registered when the
    stream is created, so it runs only for a stream that is still in the
    map of its channel. *)
Inductive step : PubSub -> PubSub -> Prop :=
| step_array (p : PubSub) (array : nat) (names : list string) :
    step p (set_arrays (<[array := names]> (arrays p)) p)
| step_publish (p : PubSub) (channels : nat) (data : Js.value) (callback : nat) :
    step p (publish channels data callback p)
| step_subscribe (p : PubSub) (channel : string) (callback : nat) :
    step p (subscribe channel callback p)
| step_tick (p : PubSub) :
    step p (run_tick p)
| step_subscribe_done (p : PubSub) (channel : string) (callback : nat)
    (err : Js.value) :
    step p (subscribe_done channel callback err p)
| step_stream_closed (p : PubSub) (channel : string) (stream : OpStream)
    (map : gmap Z OpStream) :
    streams p !! channel = Some map ->
    map !! stream_id stream = Some stream ->
    step p (stream_closed channel stream p).

Definition reachable (p : PubSub) : Prop :=
  exists options_prefix, rtc step (new_PubSub options_prefix) p.

(** The same, for channels under names that no plain object inherits:
    the names a caller subscribes to, after prefixing, and the names the
    transport answers for. The functions queued for a tick then carry such
    names too. *)
Inductive plain_step : PubSub -> PubSub -> Prop :=
| plain_array (p : PubSub) (array : nat) (names : list string) :
    plain_step p (set_arrays (<[array := names]> (arrays p)) p)
| plain_publish (p : PubSub) (channels : nat) (data : Js.value) (callback : nat) :
    plain_step p (publish channels data callback p)
| plain_subscribe (p : PubSub) (channel : string) (callback : nat) :
    Js.prototype_member (prefixed p channel) = false ->
    plain_step p (subscribe channel callback p)
| plain_tick (p : PubSub) :
    plain_step p (run_tick p)
| plain_subscribe_done (p : PubSub) (channel : string) (callback : nat)
    (err : Js.value) :
    Js.prototype_member channel = false ->
    plain_step p (subscribe_done channel callback err p)
| plain_stream_closed (p : PubSub) (channel : string) (stream : OpStream)
    (map : gmap Z OpStream) :
    streams p !! channel = Some map ->
    map !! stream_id stream = Some stream ->
    plain_step p (stream_closed channel stream p).

Definition plain_reachable (p : PubSub) : Prop :=
  exists options_prefix, rtc plain_step (new_PubSub options_prefix) p.


(** The number of streams in the maps of all channels. *)
Definition total (channels : gmap string (gmap Z OpStream)) : nat :=
  map_fold (fun _ (map : gmap Z OpStream) n => (size map + n)%nat) 0%nat channels.

Definition open_streams (p : PubSub) : nat := total (streams p).

(** Every stream sits under its own id in one channel only, the ids are
    those the counter has passed, and no channel has an empty map. *)
Definition streams_wf (p : PubSub) : Prop :=
  (1 <= nextStreamId p)%Z
  /\ (forall channel map, streams p !! channel = Some map ->
        map <> ∅
        /\ forall id stream, map !! id = Some stream ->
             stream_id stream = id /\ (1 <= id < nextStreamId p)%Z)
  /\ (forall channel1 channel2 map1 map2 id,
        streams p !! channel1 = Some map1 -> streams p !! channel2 = Some map2 ->
        is_Some (map1 !! id) -> is_Some (map2 !! id) -> channel1 = channel2).

(** What a run keeps true of the counters and the two maps. *)
Definition invariant (p : PubSub) : Prop :=
  streams_wf p
  /\ streamsCount p = Z.of_nat (open_streams p)
  /\ forall channel, is_Some (subscribed p !! channel) ->
       is_Some (streams p !! channel).

End PubSubRuns.

(** ** Delivery to the streams of a channel ([pubsub.ts], [_emit]) *)

Module PubSubDelivery.

Import PubSubCore.





(** The order of [for (const id in channelStreams)] for keys that are
    array indices, as the ids are that the counter gives out: the smaller
    id comes first. *)
Definition id_le (a b : Z * OpStream) : Prop := (fst a <= fst b)%Z.

#[export] Instance id_le_dec : RelDecision id_le :=
  fun a b => decide (fst a <= fst b)%Z.



End PubSubDelivery.

(** ** Further concrete instances *)

Module BehaviourExamples.

Import ClientConnection Examples.

(** A connection that has handed out one document and is not yet
    connected. *)
Definition reading : Connection :=
  run_ops types_map types_defaultType [Call_get "books" "id1"] connecting.

(** A connection with one fetch query, created before the handshake. *)
Definition querying : Connection :=
  run_ops types_map types_defaultType
    [Call_createFetchQuery "books" (Js.Obj []) Js.Null 0] connecting.




(** A socket whose [close()] delivers the close event before it returns,
    and a connection that went through the handshake on it. *)
Definition closing_socket : Socket :=
  {| sock_ref := 5; readyState := Js.Num 1; close_fires := Some (Js.Str "closed") |}.

Definition connected_on_closing_socket : Connection :=
  run_ops types_map types_defaultType
    [Call_on_error; Socket_onmessage (Decoded init_message) untouched]
    (new_Connection closing_socket).

End BehaviourExamples.

Module PubSubBehaviourExamples.

Import PubSubCore PubSubExamples.

(** Two streams open on "room": the second subscribe of scenario S6 went
    through its tick. *)
Definition two_streams : PubSub :=
  run_tick (subscribe "room" 8 one_stream).


End PubSubBehaviourExamples.

(** ** Proofs about the connection *)

Module ConnectionProofs.

Import ClientConnection StateMachineSpec Reasoning Examples.

(** *** Running monadic code *)

Lemma exec_bind {A B : Type} (m : M A) (k : A -> M B) (c : Connection) :
  exec (m ≫= k) c =
  match m c with
  | (c', Normal a) => exec (k a) c'
  | (c', Throws _) => c'
  end.
Proof.
  unfold exec, mbind, conn_bind.
  destruct (m c) as [c' [a | e]]; reflexivity.
Qed.

Lemma run_bind {A B : Type} (m : M A) (k : A -> M B) (c : Connection) :
  (m ≫= k) c =
  match m c with
  | (c', Normal a) => k a c'
  | (c', Throws e) => (c', Throws e)
  end.
Proof. reflexivity. Qed.


Lemma run_gets_bind {A B : Type} (f : Connection -> A) (k : A -> M B)
    (c : Connection) :
  (gets f ≫= k) c = k (f c) c.
Proof. reflexivity. Qed.

Section Preservation.

Variable P : Connection -> Prop.

Lemma preserves_ret {A : Type} (a : A) : preserves P (mret a).
Proof. intros c H. exact H. Qed.

Lemma preserves_throw {A : Type} (e : Arg) : preserves P (@throw A e).
Proof. intros c H. exact H. Qed.

Lemma preserves_gets {A : Type} (f : Connection -> A) : preserves P (gets f).
Proof. intros c H. exact H. Qed.

Lemma preserves_bind {A B : Type} (m : M A) (k : A -> M B) :
  preserves P m -> (forall a, preserves P (k a)) -> preserves P (m ≫= k).
Proof.
  intros Hm Hk c Hc. rewrite exec_bind.
  specialize (Hm c Hc). unfold exec in Hm.
  destruct (m c) as [c' [a | e]]; simpl in Hm.
  - apply Hk, Hm.
  - exact Hm.
Qed.

Lemma preserves_when (b : bool) (m : M unit) :
  preserves P m -> preserves P (when b m).
Proof. intros Hm. destruct b; [exact Hm | apply preserves_ret]. Qed.

Lemma preserves_for_each {A : Type} (xs : list A) (body : A -> M unit) :
  (forall x, preserves P (body x)) -> preserves P (for_each xs body).
Proof.
  intros Hbody. induction xs as [| x xs IH]; simpl.
  - apply preserves_ret.
  - apply preserves_bind; [apply Hbody | intros _; exact IH].
Qed.

Lemma preserves_try_catch (m : M unit) (handler : Arg -> M unit) :
  preserves P m -> (forall e, preserves P (handler e)) ->
  preserves P (try_catch m handler).
Proof.
  intros Hm Hh c Hc. specialize (Hm c Hc).
  unfold exec, try_catch in *.
  destruct (m c) as [c' [a | e]]; simpl in *.
  - exact Hm.
  - apply (Hh e c' Hm).
Qed.

Lemma preserves_modify (f : Connection -> Connection) :
  (forall c, P c -> P (f c)) -> preserves P (modify f).
Proof. intros Hf c Hc. apply Hf, Hc. Qed.

End Preservation.

(** *** What sending and notifying leave alone *)


Lemma keeps_fields {A : Type} (m : M A) (c : Connection) :
  keeps m -> fields (exec m c) = fields c.
Proof. intros H. apply (H (fields c) c). reflexivity. Qed.

Lemma fields_eq (c c' : Connection) :
  fields c' = fields c ->
  collections c' = collections c
  /\ queries c' = queries c
  /\ seq c' = seq c
  /\ id c' = id c
  /\ agent c' = agent c
  /\ state c' = state c
  /\ canSend c' = canSend c.
Proof.
  unfold fields. intros H.
  injection H as Hcs _ Hqs Hseq Hid Hagent _ Hstate _ HcanSend _ _ _.
  split_and!; assumption.
Qed.

Lemma keeps_ret {A : Type} (a : A) : keeps (mret a : M A).
Proof. intros x. apply preserves_ret. Qed.

Lemma keeps_gets {A : Type} (f : Connection -> A) : keeps (gets f).
Proof. intros x. apply preserves_gets. Qed.

Lemma keeps_throw {A : Type} (e : Arg) : keeps (@throw A e).
Proof. intros x. apply preserves_throw. Qed.

Lemma keeps_bind {A B : Type} (m : M A) (k : A -> M B) :
  keeps m -> (forall a, keeps (k a)) -> keeps (m ≫= k).
Proof. intros Hm Hk x. apply preserves_bind; [apply Hm | intros a; apply Hk]. Qed.

Lemma keeps_when (b : bool) (m : M unit) : keeps m -> keeps (when b m).
Proof. intros Hm x. apply preserves_when, Hm. Qed.

Lemma keeps_for_each {A : Type} (xs : list A) (body : A -> M unit) :
  (forall x, keeps (body x)) -> keeps (for_each xs body).
Proof. intros Hb x. apply preserves_for_each. intros y. apply Hb. Qed.

Lemma keeps_effect (e : Effect) : keeps (effect e).
Proof. intros x c H. exact H. Qed.

Lemma keeps_set_bulk (b : option (Js.obj (Js.obj (Js.obj Js.value)))) :
  keeps (modify (set_bulk b)).
Proof. intros x c H. exact H. Qed.

Create HintDb keeps discriminated.
#[local] Hint Resolve keeps_ret keeps_gets keeps_throw keeps_effect
  keeps_set_bulk keeps_when keeps_for_each : keeps.

(** Break a method down to its primitive steps. *)
Ltac keeps_steps :=
  repeat first
    [ apply keeps_bind; [| intros ? ]
    | progress (auto with keeps)
    | match goal with
      | |- keeps (match ?x with _ => _ end) => destruct x
      | |- keeps (if ?b then _ else _) => destruct b
      | |- keeps (let (_, _) := ?x in _) => destruct x
      end ].

Lemma keeps_emit (event : string) (args : list Arg) : keeps (emit event args).
Proof. unfold emit. keeps_steps. Qed.
#[local] Hint Resolve keeps_emit : keeps.

Lemma keeps_send (message : Js.value) : keeps (send message).
Proof. unfold send. keeps_steps. Qed.
#[local] Hint Resolve keeps_send : keeps.

Lemma keeps_startBulk : keeps startBulk.
Proof. unfold startBulk. keeps_steps. Qed.
#[local] Hint Resolve keeps_startBulk : keeps.

Lemma keeps__sendBulk (action collection : string)
    (values : option (Js.obj Js.value)) :
  keeps (_sendBulk action collection values).
Proof. unfold _sendBulk. keeps_steps. Qed.
#[local] Hint Resolve keeps__sendBulk : keeps.

Lemma keeps_endBulk : keeps endBulk.
Proof.
  unfold endBulk. keeps_steps.
  apply keeps_for_each. intros [collection actions]. keeps_steps.
Qed.
#[local] Hint Resolve keeps_endBulk : keeps.


Lemma keeps_announce (newState : string) (reason : Js.value) :
  keeps (announce newState reason).
Proof.
  unfold announce. keeps_steps.
  apply keeps_for_each. intros entry. keeps_steps.
Qed.

(** *** The state machine *)

Lemma run_emit (event : string) (args : list Arg) (c : Connection) :
  emit event args c =
  (set_trace (trace c ++ [Emit event args]) c,
   if String.eqb event "error" && negb (error_listener c)
   then Throws (hd (AVal Js.Undefined) args)
   else Normal tt).
Proof.
  unfold emit. cbv [mbind conn_bind effect modify gets].
  simpl. destruct (String.eqb event "error" && negb (error_listener c)); reflexivity.
Qed.

Lemma _setState_same (newState : string) (reason : Js.value) (c : Connection) :
  state c = newState -> _setState newState reason c = (c, Normal tt).
Proof.
  intros H. unfold _setState. cbv [mbind conn_bind gets].
  rewrite H, String.eqb_refl. reflexivity.
Qed.

Lemma illegal_transition_test (old new : string) :
  illegal_transition old new ->
  (String.eqb new "connecting"
   && negb (String.eqb old "disconnected")
   && negb (String.eqb old "stopped")
   && negb (String.eqb old "closed"))
  || (String.eqb new "connected" && negb (String.eqb old "connecting")) = true.
Proof.
  intros [(-> & H1 & H2 & H3) | (-> & H1)].
  - apply String.eqb_neq in H1, H2, H3. rewrite H1, H2, H3. reflexivity.
  - apply String.eqb_neq in H1. rewrite H1. apply orb_true_r.
Qed.

Lemma closing_state_test (old new : string) :
  closing_state new ->
  (String.eqb new "connecting"
   && negb (String.eqb old "disconnected")
   && negb (String.eqb old "stopped")
   && negb (String.eqb old "closed"))
  || (String.eqb new "connected" && negb (String.eqb old "connecting")) = false
  /\ String.eqb new "connected" = false
  /\ String.eqb new "disconnected" || String.eqb new "stopped"
     || String.eqb new "closed" = true.
Proof.
  intros [-> | [-> | ->]]; split_and!; reflexivity.
Qed.

Lemma _setState_illegal (newState : string) (reason : Js.value) (c : Connection) :
  state c <> newState ->
  illegal_transition (state c) newState ->
  _setState newState reason c =
  emit "error" [AErr (transition_error (state c) newState)] c.
Proof.
  intros Hne Hill. unfold _setState. cbv [mbind conn_bind gets].
  apply String.eqb_neq in Hne. rewrite Hne.
  rewrite (illegal_transition_test _ _ Hill). reflexivity.
Qed.

Lemma _setState_closing (newState : string) (reason : Js.value) (c : Connection) :
  state c <> newState ->
  closing_state newState ->
  _setState newState reason c =
  announce newState reason
    (set_agent None (set_id Js.Null (set_seq 1
       (set_canSend false (set_state newState c))))).
Proof.
  intros Hne Hclosing. unfold _setState. cbv [mbind conn_bind gets].
  apply String.eqb_neq in Hne. rewrite Hne.
  destruct (closing_state_test (state c) newState Hclosing) as (-> & -> & ->).
  reflexivity.
Qed.

(** C10. A call of [_setState] with the state the connection is already in
    returns at once and leaves the whole connection as it was: nothing is
    reset, no query or document is notified, no event is emitted (the trace
    of outgoing calls is part of the state that stays the same). *)
Theorem C10_setState_to_current_state_is_noop
    (c : Connection) (reason : Js.value) :
  _setState (state c) reason c = (c, Normal tt).
Proof. apply _setState_same. reflexivity. Qed.

(** C3, as stated, fails: a request for ['connecting'] made while the
    connection is ['connecting'] is among the transitions the claim lists,
    and no ['error'] event follows it; the call changes nothing at all.
    This is the call [socket.onopen] makes once a socket that was still
    opening when the connection was built has opened. *)
Lemma C3_connecting_to_connecting_is_silent :
  state opening = "connecting"
  /\ illegal_transition (state opening) "connecting"
  /\ exec (_setState "connecting" Js.Undefined) opening = opening
  /\ exec socket_onopen opening = opening
  /\ forall err,
       ~ In (Emit "error" [AErr err])
           (trace (exec (_setState "connecting" Js.Undefined) opening)).
Proof.
  split_and!.
  - reflexivity.
  - left. vm_compute. split_and!; first [reflexivity | discriminate].
  - vm_compute. reflexivity.
  - vm_compute. reflexivity.
  - intros err. vm_compute. intros [H | []]. discriminate H.
Qed.

(** C3, amended. When the requested state differs from the current one and
    the transition is illegal, [_setState] changes nothing but the trace,
    to which it adds exactly one event: ['error'] with the structured error
    5007 "Cannot transition directly from <old> to <new>". In particular
    state, canSend, seq, id and agent keep their values and neither the
    state-named event nor ['state'] is emitted. The call returns when an
    ['error'] listener is registered and throws the error otherwise. *)
Theorem C3_illegal_transition_is_rejected
    (c : Connection) (newState : string) (reason : Js.value) :
  state c <> newState ->
  illegal_transition (state c) newState ->
  let c' := exec (_setState newState reason) c in
  let err := ShareDBError 5007
               ("Cannot transition directly from " +:+ state c +:+ " to " +:+ newState) in
  c' = set_trace (trace c ++ [Emit "error" [AErr err]]) c
  /\ state c' = state c
  /\ canSend c' = canSend c
  /\ seq c' = seq c
  /\ id c' = id c
  /\ agent c' = agent c
  /\ trace c' = trace c ++ [Emit "error" [AErr err]]
  /\ outcome (_setState newState reason) c
     = if error_listener c then Normal tt else Throws (AErr err).
Proof.
  intros Hne Hill. simpl.
  unfold exec, outcome. rewrite (_setState_illegal _ _ _ Hne Hill), run_emit. simpl.
  split_and!; try reflexivity.
  destruct (error_listener c); reflexivity.
Qed.

(** Instance of the amended C3: scenario S4, ['connecting'] requested while
    ['connected']. *)
Lemma C3_witness_connected_to_connecting :
  state connected <> "connecting"
  /\ illegal_transition (state connected) "connecting"
  /\ state (exec (_setState "connecting" Js.Undefined) connected) = "connected"
  /\ trace (exec (_setState "connecting" Js.Undefined) connected)
     = trace connected
       ++ [Emit "error"
             [AErr (ShareDBError 5007
                      "Cannot transition directly from connected to connecting")]].
Proof.
  assert (Hne : state connected <> "connecting") by (vm_compute; discriminate).
  assert (Hill : illegal_transition (state connected) "connecting")
    by (left; vm_compute; split_and!; first [reflexivity | discriminate]).
  split; [exact Hne |]. split; [exact Hill |].
  destruct (C3_illegal_transition_is_rejected connected "connecting" Js.Undefined Hne Hill)
    as (_ & Hstate & _ & _ & _ & _ & Htrace & _).
  split; [exact Hstate | exact Htrace].
Defined.

(** C4. An accepted transition into ['disconnected'], ['closed'] or
    ['stopped'] (the requested state differs from the current one) leaves
    seq at 1, the client id and the agent at null, and the document and
    query registries exactly as they were. *)
Theorem C4_closing_transition_resets_and_keeps_registries
    (c : Connection) (newState : string) (reason : Js.value) :
  closing_state newState ->
  state c <> newState ->
  let c' := exec (_setState newState reason) c in
  state c' = newState
  /\ canSend c' = false
  /\ seq c' = 1%Z
  /\ id c' = Js.Null
  /\ agent c' = None
  /\ collections c' = collections c
  /\ queries c' = queries c.
Proof.
  intros Hclosing Hne c'.
  pose proof (keeps_fields (announce newState reason)
                (set_agent None (set_id Js.Null (set_seq 1
                   (set_canSend false (set_state newState c)))))
                (keeps_announce newState reason)) as H.
  apply fields_eq in H.
  assert (Hc' : c' = exec (announce newState reason)
                       (set_agent None (set_id Js.Null (set_seq 1
                          (set_canSend false (set_state newState c)))))).
  { subst c'. unfold exec. rewrite (_setState_closing _ _ _ Hne Hclosing). reflexivity. }
  rewrite Hc'. clear Hc' c'.
  destruct H as (Hcs & Hqs & Hseq & Hid & Hagent & Hstate & HcanSend).
  split_and!; assumption.
Qed.

(** Instance of C4: scenario S5, the transport reports "Request failed"
    while the connection is connected with a document and a query. *)
Lemma C4_witness_request_failed :
  closing_state "disconnected"
  /\ state busy <> "disconnected"
  /\ seq (exec (_setState "disconnected" (Js.Str "Request failed")) busy) = 1%Z
  /\ id (exec (_setState "disconnected" (Js.Str "Request failed")) busy) = Js.Null
  /\ agent (exec (_setState "disconnected" (Js.Str "Request failed")) busy) = None
  /\ collections (exec (_setState "disconnected" (Js.Str "Request failed")) busy)
     = collections busy
  /\ queries (exec (_setState "disconnected" (Js.Str "Request failed")) busy)
     = queries busy.
Proof.
  assert (Hclosing : closing_state "disconnected") by (left; reflexivity).
  assert (Hne : state busy <> "disconnected") by (vm_compute; discriminate).
  split; [exact Hclosing |]. split; [exact Hne |].
  destruct (C4_closing_transition_resets_and_keeps_registries busy "disconnected"
              (Js.Str "Request failed") Hclosing Hne)
    as (_ & _ & Hseq & Hid & Hagent & Hcs & Hqs).
  split_and!; assumption.
Defined.

(** *** Inbound dispatch *)

Lemma obj_get_delete_ne {A : Type} (k k' : string) (o : Js.obj A) :
  k <> k' -> Js.obj_get k (Js.obj_delete k' o) = Js.obj_get k o.
Proof.
  intros Hne. induction o as [| [k0 v] o IH]; simpl; [reflexivity |].
  destruct (String.eqb_spec k' k0) as [-> | Hk0]; simpl.
  - apply String.eqb_neq in Hne. rewrite Hne. exact IH.
  - destruct (String.eqb k k0); [reflexivity | exact IH].
Qed.

Lemma prop_delete_ne (v : Js.value) (k k' : string) :
  k <> k' -> Js.prop (Js.delete_prop v k') k = Js.prop v k.
Proof.
  intros Hne. destruct v; try reflexivity.
  simpl. rewrite (obj_get_delete_ne _ _ _ Hne). reflexivity.
Qed.

Section DispatchProofs.

Variable types_map : Js.obj nat.
Variable types_defaultType : nat.

#[local] Abbreviation handleMessage := (handleMessage types_map types_defaultType).
#[local] Abbreviation not_default_type := (not_default_type types_map types_defaultType).

(** The ['init'] case of the switch, whether or not the message carries an
    error envelope. *)
Lemma handleMessage_init (message : Js.value) (c : Connection) :
  Js.prop message "a" = Js.Str "init" ->
  handleMessage message c =
  (if negb (Js.is_num 1 (Js.prop message "protocol")) then
     emit "error" [AErr (ShareDBError 4019 "Invalid protocol version")]
   else if not_default_type (Js.prop message "type") then
     emit "error" [AErr (ShareDBError 4020 "Invalid default type")]
   else if negb (Js.is_string (Js.prop message "id")) then
     emit "error" [AErr (ShareDBError 4021 "Invalid client id")]
   else
     modify (set_id (Js.prop message "id")) ;;
     _setState "connected" Js.Undefined) c.
Proof.
  intros Ha. unfold ClientConnection.handleMessage.
  destruct (Js.nullish message) eqn:Hnull.
  { destruct message; discriminate. }
  destruct (Js.truthy (Js.prop message "error")).
  - rewrite !prop_delete_ne by discriminate. rewrite Ha. reflexivity.
  - rewrite Ha. reflexivity.
Qed.

Lemma _setState_connected (reason : Js.value) (c : Connection) :
  state c = "connecting" ->
  _setState "connected" reason c =
  announce "connected" reason (set_canSend true (set_state "connected" c)).
Proof.
  intros H. unfold _setState. cbv [mbind conn_bind gets]. rewrite H. reflexivity.
Qed.

(** C6, amended. For an inbound ['init'] message: a protocol other than 1
    is answered by error 4019, else a type that is not the local default by
    error 4020, else an id that is not a string by error 4021, and in these
    three cases nothing but the trace changes. Otherwise the client id
    becomes the message id and the transition to ['connected'] is requested
    from [_setState]: the state becomes ['connected'] when it was
    ['connecting'], stays ['connected'] when it already was, and from any
    other state it stays what it was while error 5007 is emitted. *)
Theorem C6_init_is_validated_then_connects
    (message : Js.value) (c : Connection) :
  Js.prop message "a" = Js.Str "init" ->
  let c' := exec (handleMessage message) c in
  let refused e := c' = set_trace (trace c ++ [Emit "error" [AErr e]]) c in
  (Js.is_num 1 (Js.prop message "protocol") = false ->
   refused (ShareDBError 4019 "Invalid protocol version"))
  /\ (Js.is_num 1 (Js.prop message "protocol") = true ->
      not_default_type (Js.prop message "type") = true ->
      refused (ShareDBError 4020 "Invalid default type"))
  /\ (Js.is_num 1 (Js.prop message "protocol") = true ->
      not_default_type (Js.prop message "type") = false ->
      Js.is_string (Js.prop message "id") = false ->
      refused (ShareDBError 4021 "Invalid client id"))
  /\ (Js.is_num 1 (Js.prop message "protocol") = true ->
      not_default_type (Js.prop message "type") = false ->
      Js.is_string (Js.prop message "id") = true ->
      id c' = Js.prop message "id"
      /\ (state c = "connecting" -> state c' = "connected" /\ canSend c' = true)
      /\ (state c = "connected" -> state c' = "connected")
      /\ (state c <> "connecting" -> state c <> "connected" ->
          state c' = state c
          /\ trace c' = trace c
               ++ [Emit "error" [AErr (transition_error (state c) "connected")]])).
Proof.
  intros Ha c' refused. subst c' refused. unfold exec.
  rewrite (handleMessage_init _ _ Ha).
  split_and!.
  - intros ->. simpl. rewrite run_emit. reflexivity.
  - intros -> ->. simpl. rewrite run_emit. reflexivity.
  - intros -> -> ->. simpl. rewrite run_emit. reflexivity.
  - intros -> -> ->. cbn [negb].
    change ((modify (set_id (Js.prop message "id")) ;; _setState "connected" Js.Undefined) c)
      with (_setState "connected" Js.Undefined (set_id (Js.prop message "id") c)).
    set (c1 := set_id (Js.prop message "id") c).
    assert (Hstate1 : state c1 = state c) by reflexivity.
    assert (Hid1 : id c1 = Js.prop message "id") by reflexivity.
    assert (Htrace1 : trace c1 = trace c) by reflexivity.
    clearbody c1.
    destruct (String.eqb_spec (state c1) "connected") as [Hconnected | Hnot].
    + (* already connected: the call returns at once *)
      rewrite (_setState_same _ _ _ Hconnected). simpl.
      split_and!; congruence.
    + destruct (String.eqb_spec (state c1) "connecting") as [Hconnecting | Hother].
      * (* the accepted transition *)
        rewrite (_setState_connected _ _ Hconnecting).
        pose proof (keeps_fields (announce "connected" Js.Undefined)
                      (set_canSend true (set_state "connected" c1))
                      (keeps_announce "connected" Js.Undefined)) as H.
        apply fields_eq in H.
        destruct H as (_ & _ & _ & Hid & _ & Hstate & HcanSend).
        unfold exec in Hid, Hstate, HcanSend.
        split_and!.
        -- rewrite Hid. exact Hid1.
        -- intros _. split; [exact Hstate | exact HcanSend].
        -- intros _. exact Hstate.
        -- intros H. congruence.
      * (* the rejected transition *)
        assert (Hill : illegal_transition (state c1) "connected")
          by (right; split; [reflexivity | exact Hother]).
        rewrite (_setState_illegal _ _ _ Hnot Hill), run_emit. simpl.
        split_and!; try congruence.
        intros _ _. split; [exact Hstate1 |]. rewrite Htrace1, Hstate1. reflexivity.
Qed.

End DispatchProofs.

(** C6, as stated, fails: a well-formed ['init'] dispatched while the
    connection is ['disconnected'] sets the client id but does not bring
    the state to ['connected']. *)
Lemma C6_init_while_disconnected_does_not_connect :
  Js.prop init_message "a" = Js.Str "init"
  /\ Js.is_num 1 (Js.prop init_message "protocol") = true
  /\ not_default_type types_map types_defaultType (Js.prop init_message "type") = false
  /\ Js.is_string (Js.prop init_message "id") = true
  /\ state disconnected = "disconnected"
  /\ id (exec (handleMessage types_map types_defaultType init_message) disconnected)
     = Js.Str "C7"
  /\ state (exec (handleMessage types_map types_defaultType init_message) disconnected)
     = "disconnected"
  /\ state (exec (handleMessage types_map types_defaultType init_message) disconnected)
     <> "connected".
Proof.
  split_and!; try reflexivity. vm_compute. discriminate.
Qed.

(** Instance of the amended C6: scenario S1, the handshake on a connection
    that is ['connecting']. *)
Lemma C6_witness_handshake :
  Js.prop init_message "a" = Js.Str "init"
  /\ state connecting = "connecting"
  /\ id (exec (handleMessage types_map types_defaultType init_message) connecting)
     = Js.Str "C7"
  /\ state (exec (handleMessage types_map types_defaultType init_message) connecting)
     = "connected"
  /\ canSend (exec (handleMessage types_map types_defaultType init_message) connecting)
     = true.
Proof.
  assert (Ha : Js.prop init_message "a" = Js.Str "init") by reflexivity.
  destruct (C6_init_is_validated_then_connects types_map types_defaultType
              init_message connecting Ha)
    as (_ & _ & _ & Hok).
  destruct Hok as (Hid & Hconnecting & _); try reflexivity.
  destruct Hconnecting as (Hstate & HcanSend); [reflexivity |].
  split_and!; [exact Ha | reflexivity | exact Hid | exact Hstate | exact HcanSend].
Defined.

(** *** Bulk replies that carry an error envelope *)

Lemma obj_get_delete_eq {A : Type} (k : string) (o : Js.obj A) :
  Js.obj_get k (Js.obj_delete k o) = None.
Proof.
  induction o as [| [k0 v] o IH]; simpl; [reflexivity |].
  destruct (String.eqb_spec k k0) as [-> | Hne]; simpl.
  - exact IH.
  - apply String.eqb_neq in Hne. rewrite Hne. exact IH.
Qed.

Lemma prop_error_after_delete (message : Js.value) :
  Js.truthy (Js.prop message "error") = true ->
  Js.prop (Js.delete_prop message "error") "error" = Js.Undefined.
Proof.
  (* only an object has an own property of that name *)
  destruct message; try discriminate.
  intros _. simpl. rewrite obj_get_delete_eq. reflexivity.
Qed.

(** Every call [_handleBulkMessage] makes passes [message.error] as it is
    when the call is made. *)
Lemma _handleBulkMessage_passes_message_error
    (message : Js.value) (method : string) (c : Connection) :
  Js.prop message "error" = Js.Undefined ->
  exists calls,
    trace (exec (_handleBulkMessage message method) c) = trace c ++ calls
    /\ Forall forwards_no_error calls.
Proof.
  intros Herror.
  set (P := fun c' => exists calls,
                trace c' = trace c ++ calls /\ Forall forwards_no_error calls).
  assert (Hstep : forall doc rest,
             preserves P (effect (DocCall doc method (AVal Js.Undefined :: rest)))).
  { intros doc rest c' (calls & Ht & Hall).
    exists (calls ++ [DocCall doc method (AVal Js.Undefined :: rest)]). split.
    - simpl. rewrite Ht, app_assoc. reflexivity.
    - apply Forall_app. split; [exact Hall | repeat constructor]. }
  assert (Hforward : forall id rest,
             preserves P
               (doc ← gets (getExisting (Js.prop message "c") id);
                match doc with
                | Some doc => effect (DocCall doc method (AVal Js.Undefined :: rest))
                | None => mret tt
                end)).
  { intros id0 rest. apply preserves_bind; [apply preserves_gets |].
    intros [doc |]; [apply Hstep | apply preserves_ret]. }
  assert (Hlog : preserves P (effect (ConsoleError "Invalid bulk message" message))).
  { intros c' (calls & Ht & Hall).
    exists (calls ++ [ConsoleError "Invalid bulk message" message]). split.
    - simpl. rewrite Ht, app_assoc. reflexivity.
    - apply Forall_app. split; [exact Hall | repeat constructor]. }
  assert (HP : preserves P (_handleBulkMessage message method)).
  { unfold _handleBulkMessage. rewrite Herror.
    destruct (Js.truthy (Js.prop message "data")).
    - apply preserves_for_each. intros id0. apply Hforward.
    - destruct (Js.prop message "b") as [| | flag | n | text | items | props];
        try destruct (Js.truthy _);
        first [ exact Hlog
              | apply preserves_for_each; intros id0; apply Hforward ]. }
  apply HP. exists []. split; [rewrite app_nil_r; reflexivity | constructor].
Qed.

(** The general form of the defect behind C1: when a bulk reply carries an
    error envelope, [handleMessage] deletes [message.error] before
    [_handleBulkMessage] reads it, so every handler call it makes has
    [undefined] in the error position. *)
Lemma bulk_reply_error_never_reaches_the_documents
    (types_map : Js.obj nat) (types_defaultType : nat)
    (message : Js.value) (a : string) (c : Connection) :
  Js.prop message "a" = Js.Str a ->
  a = "bf" \/ a = "bs" \/ a = "bu" ->
  Js.truthy (Js.prop message "error") = true ->
  exists calls,
    trace (exec (handleMessage types_map types_defaultType message) c)
    = trace c ++ calls
    /\ Forall forwards_no_error calls.
Proof.
  intros Ha Hbulk Herr.
  assert (Heq : exists method,
             handleMessage types_map types_defaultType message
             = _handleBulkMessage (Js.delete_prop message "error") method).
  { unfold handleMessage.
    destruct (Js.nullish message) eqn:Hnull; [destruct message; discriminate |].
    rewrite Herr, prop_delete_ne, Ha by discriminate.
    destruct Hbulk as [-> | [-> | ->]]; eexists; reflexivity. }
  destruct Heq as (method & ->).
  apply _handleBulkMessage_passes_message_error, prop_error_after_delete, Herr.
Qed.

(** C1, the code at three bulk fetch replies that carry an error envelope
    while document books/id1 is registered: in each form ([data], [b] as an
    array, [b] as a mapping) the document's [_handleFetch] is called with
    [undefined] where the claim has the message-level error. The
    single-document reply ['f'] with the same envelope does hand the error
    over. *)
Theorem C1_bulk_replies_hand_undefined_to_the_documents :
  trace (exec (handleMessage types_map types_defaultType bulk_reply_data) busy)
  = trace busy
    ++ [DocCall 0 "_handleFetch" [AVal Js.Undefined; AVal (Js.Obj [("v", Js.Num 1)])]]
  /\ trace (exec (handleMessage types_map types_defaultType bulk_reply_array) busy)
     = trace busy ++ [DocCall 0 "_handleFetch" [AVal Js.Undefined]]
  /\ trace (exec (handleMessage types_map types_defaultType bulk_reply_mapping) busy)
     = trace busy ++ [DocCall 0 "_handleFetch" [AVal Js.Undefined]]
  /\ trace (exec (handleMessage types_map types_defaultType single_reply) busy)
     = trace busy
       ++ [DocCall 0 "_handleFetch"
             [AErr (WrappedError (Js.Str "Unknown error") (Js.Num 4001)
                      (Js.Obj [("a", Js.Str "f"); ("c", Js.Str "books");
                               ("d", Js.Str "id1")]));
              AVal Js.Undefined]].
Proof. split_and!; vm_compute; reflexivity. Qed.

(** *** canSend and the state *)

Create HintDb live discriminated.

(** Break a method down to its primitive steps, for a property that the
    assignments met on the way leave as it is or make trivially true. *)
Ltac preserves_steps :=
  repeat first
    [ solve [auto with live]
    | apply preserves_bind; [| intros ? ]
    | apply preserves_ret
    | apply preserves_gets
    | apply preserves_throw
    | apply preserves_when
    | apply preserves_for_each; intros ?
    | apply preserves_try_catch; [| intros ? ]
    | progress cbv beta
    | match goal with
      | |- preserves _ (modify _) =>
          let H := fresh in
          apply preserves_modify; intros ? H;
          first [ exact H | intros H'; discriminate H' ]
      | |- preserves _ (effect _) =>
          let H := fresh in intros ? H; exact H
      | |- preserves _ (match ?x with _ => _ end) => destruct x
      | |- preserves _ (if ?b then _ else _) => destruct b
      | |- preserves _ (let (_, _) := ?x in _) => destruct x
      end ].

Lemma live_emit (event : string) (args : list Arg) :
  preserves live_only_when_connected (emit event args).
Proof. unfold emit. preserves_steps. Qed.
#[local] Hint Resolve live_emit : live.

Lemma live_send (message : Js.value) :
  preserves live_only_when_connected (send message).
Proof. unfold send. preserves_steps. Qed.
#[local] Hint Resolve live_send : live.

Lemma live__sendBulk (action collection : string) (values : option (Js.obj Js.value)) :
  preserves live_only_when_connected (_sendBulk action collection values).
Proof. unfold _sendBulk. preserves_steps. Qed.
#[local] Hint Resolve live__sendBulk : live.

Lemma live_startBulk : preserves live_only_when_connected startBulk.
Proof. unfold startBulk. preserves_steps. Qed.
#[local] Hint Resolve live_startBulk : live.

Lemma live_endBulk : preserves live_only_when_connected endBulk.
Proof. unfold endBulk. preserves_steps.
Qed.
#[local] Hint Resolve live_endBulk : live.

Lemma live__reset : preserves live_only_when_connected _reset.
Proof. unfold _reset. preserves_steps. Qed.
#[local] Hint Resolve live__reset : live.

Lemma live_announce (newState : string) (reason : Js.value) :
  preserves live_only_when_connected (announce newState reason).
Proof. unfold announce. preserves_steps. Qed.
#[local] Hint Resolve live_announce : live.

(** [_setState] assigns [state] and [canSend] together. *)
Lemma live__setState (newState : string) (reason : Js.value) :
  preserves live_only_when_connected (_setState newState reason).
Proof.
  intros c Hc. unfold exec.
  destruct (String.eqb_spec (state c) newState) as [Hsame | Hne].
  { rewrite (_setState_same _ _ _ Hsame). exact Hc. }
  unfold _setState. cbv [mbind conn_bind gets].
  apply String.eqb_neq in Hne. rewrite Hne.
  match goal with |- context [if ?b then _ else _] => destruct b end.
  { apply (live_emit _ _ c Hc). }
  change (live_only_when_connected
            (exec (when (String.eqb newState "disconnected"
                         || String.eqb newState "stopped"
                         || String.eqb newState "closed") _reset ;;
                   announce newState reason)
               (set_canSend (String.eqb newState "connected")
                  (set_state newState c)))).
  revert c Hc Hne. intros c _ _.
  assert (Hstart : live_only_when_connected
                     (set_canSend (String.eqb newState "connected")
                        (set_state newState c))).
  { intros H. simpl in H. apply String.eqb_eq in H. exact H. }
  revert Hstart. generalize (set_canSend (String.eqb newState "connected")
                               (set_state newState c)).
  pose proof (live_announce newState reason).
  change (preserves live_only_when_connected
            (when (String.eqb newState "disconnected"
                   || String.eqb newState "stopped"
                   || String.eqb newState "closed") _reset ;;
             announce newState reason)).
  preserves_steps.
Qed.
#[local] Hint Resolve live__setState : live.

Lemma live_fresh : preserves live_only_when_connected fresh.
Proof. intros c H. exact H. Qed.
#[local] Hint Resolve live_fresh : live.

Lemma live__addDoc (doc : Doc) : preserves live_only_when_connected (_addDoc doc).
Proof. unfold _addDoc. preserves_steps. Qed.
#[local] Hint Resolve live__addDoc : live.

Lemma live__sendAction (action : string) (doc : Doc) (version : Js.value) :
  preserves live_only_when_connected (_sendAction action doc version).
Proof. unfold _sendAction. preserves_steps. Qed.
#[local] Hint Resolve live__sendAction : live.

Lemma live_sendOp (doc : Doc) (op : Js.value) :
  preserves live_only_when_connected (sendOp doc op).
Proof. unfold sendOp. preserves_steps. Qed.

Lemma live_get (collection id : string) :
  preserves live_only_when_connected (get collection id).
Proof. unfold get. preserves_steps. Qed.

Lemma live__destroyDoc (doc : Doc) :
  preserves live_only_when_connected (_destroyDoc doc).
Proof. unfold _destroyDoc. preserves_steps. Qed.

Lemma live__createQuery (action collection : string) (q options : Js.value)
    (callback : nat) :
  preserves live_only_when_connected (_createQuery action collection q options callback).
Proof. unfold _createQuery. preserves_steps. Qed.

Lemma live__destroyQuery (query : Query) :
  preserves live_only_when_connected (_destroyQuery query).
Proof. unfold _destroyQuery. preserves_steps. Qed.

Lemma live__handleBulkMessage (message : Js.value) (method : string) :
  preserves live_only_when_connected (_handleBulkMessage message method).
Proof. unfold _handleBulkMessage. preserves_steps. Qed.
#[local] Hint Resolve live_sendOp live_get live__destroyDoc live__createQuery
  live__destroyQuery live__handleBulkMessage : live.

Lemma live_socket_onclose (reason : Js.value) :
  preserves live_only_when_connected (socket_onclose reason).
Proof. unfold socket_onclose. preserves_steps.
Qed.
#[local] Hint Resolve live_socket_onclose : live.

Lemma live_socket_close (s : Socket) :
  preserves live_only_when_connected (socket_close s).
Proof. unfold socket_close. preserves_steps. Qed.
#[local] Hint Resolve live_socket_close : live.

(** [bindToSocket] ends by clearing [canSend], whatever [_setState] did. *)
Lemma live_bindToSocket (socket' : Socket) :
  preserves live_only_when_connected (bindToSocket socket').
Proof. unfold bindToSocket. preserves_steps. Qed.
#[local] Hint Resolve live_bindToSocket : live.

Section Reachability.

Variable types_map : Js.obj nat.
Variable types_defaultType : nat.

Lemma live_handleMessage (message : Js.value) :
  preserves live_only_when_connected
    (handleMessage types_map types_defaultType message).
Proof. unfold handleMessage. preserves_steps. Qed.
#[local] Hint Resolve live_handleMessage : live.

Lemma live_run_op (op : Op) :
  preserves live_only_when_connected (run_op types_map types_defaultType op).
Proof.
  destruct op; unfold run_op, discard, sendFetch, sendSubscribe, sendUnsubscribe,
    createFetchQuery, createSubscribeQuery, close, socket_onmessage, socket_onopen,
    socket_onerror;
    preserves_steps.
Qed.

(** In every state a run of public operations and socket callbacks can
    reach, [canSend] holds only while the state is ['connected']. *)
Lemma canSend_only_while_connected (c : Connection) :
  reachable types_map types_defaultType c -> live_only_when_connected c.
Proof.
  intros (socket0 & ops & ->). unfold run_ops.
  assert (Hstart : live_only_when_connected (new_Connection socket0)).
  { unfold new_Connection.
    apply (live_bindToSocket socket0 (constructed socket0)).
    intros H. discriminate H. }
  revert Hstart. generalize (new_Connection socket0).
  induction ops as [| op ops IH]; intros c Hc; simpl.
  - exact Hc.
  - apply IH, live_run_op, Hc.
Qed.

End Reachability.

(** C2, the code on a reachable run: a connection built on an open socket
    gets an ['error'] listener and the server's [init], and is then bound to
    a second open socket whose predecessor's [close()] delivers no close
    event before returning. [_setState('connecting')] is refused from
    ['connected'], and [bindToSocket] clears [canSend] all the same: the
    state is ['connected'] while [canSend] is false. *)
Theorem C2_rebinding_while_connected_clears_canSend :
  reachable types_map types_defaultType rebound
  /\ state rebound = "connected"
  /\ canSend rebound = false
  /\ trace rebound
     = trace connected
       ++ [SocketClose 1; SocketUnbind 1;
           Emit "error"
             [AErr (ShareDBError 5007
                      "Cannot transition directly from connected to connecting")];
           SocketBind 2].
Proof.
  split_and!.
  - exists open_socket,
      [Call_on_error; Socket_onmessage (Decoded init_message) untouched;
       Call_bindToSocket second_socket].
    vm_compute. reflexivity.
  - vm_compute. reflexivity.
  - vm_compute. reflexivity.
  - vm_compute. reflexivity.
Qed.

(** *** The bulk flush *)

Lemma sent_frames_app (t1 t2 : list Effect) :
  sent_frames (t1 ++ t2) = sent_frames t1 ++ sent_frames t2.
Proof. unfold sent_frames. apply flat_map_app. Qed.

Lemma sends_nothing (c : Connection) : sends [] c c.
Proof. unfold sends. rewrite app_nil_r. split_and!; reflexivity. Qed.

Lemma sends_then (fs1 fs2 : list Js.value) (c1 c2 c3 : Connection) :
  sends fs1 c1 c2 -> sends fs2 c2 c3 -> sends (fs1 ++ fs2) c1 c3.
Proof.
  intros (Hf1 & Hb1 & Ht1) (Hf2 & Hb2 & Ht2). unfold sends.
  rewrite Hf2, Hf1, Hb2, Hb1, Ht2, Ht1, app_assoc. split_and!; reflexivity.
Qed.

Lemma sends_socket (fs : list Js.value) (c c' : Connection) (s : Socket) :
  sends fs c c' -> socket c = Some s -> socket c' = Some s.
Proof.
  intros (Hf & _ & _) Hs. unfold fields in Hf.
  injection Hf as _ _ _ _ _ _ _ _ Hsocket _ _ _ _. rewrite Hsocket. exact Hs.
Qed.

Lemma emits_ret : emits (mret tt) [].
Proof. intros c s _. exists c. split; [reflexivity | apply sends_nothing]. Qed.

Lemma emits_send (message : Js.value) : emits (send message) [message].
Proof.
  intros c s Hs. unfold send, when, emit, effect, modify.
  cbv [mbind conn_bind gets mret conn_ret].
  destruct (debug c); simpl; rewrite Hs; simpl;
    (eexists; split; [reflexivity |]);
    unfold sends; simpl; rewrite !sent_frames_app; simpl;
    rewrite ?app_nil_r; split_and!; reflexivity.
Qed.

Lemma emits_seq (m1 m2 : M unit) (fs1 fs2 : list Js.value) :
  emits m1 fs1 -> emits m2 fs2 -> emits (m1 ;; m2) (fs1 ++ fs2).
Proof.
  intros H1 H2 c s Hs.
  destruct (H1 c s Hs) as (c1 & Hrun1 & Hsends1).
  destruct (H2 c1 s (sends_socket _ _ _ _ Hsends1 Hs)) as (c2 & Hrun2 & Hsends2).
  exists c2. split.
  - rewrite run_bind, Hrun1. exact Hrun2.
  - exact (sends_then _ _ _ _ _ Hsends1 Hsends2).
Qed.

Lemma emits_for_each {A : Type} (xs : list A) (body : A -> M unit)
    (F : A -> list Js.value) :
  (forall x, emits (body x) (F x)) -> emits (for_each xs body) (flat_map F xs).
Proof.
  intros Hbody. induction xs as [| x xs IH]; simpl.
  - apply emits_ret.
  - apply emits_seq; [apply Hbody | exact IH].
Qed.

Lemma emits__sendBulk (action collection : string) (values : Js.obj Js.value) :
  emits (_sendBulk action collection (Some values))
    (scan_frames action collection values).
Proof.
  unfold _sendBulk, scan_frames. cbv zeta.
  apply emits_seq;
    repeat match goal with
           | |- emits (if ?b then _ else _) _ => destruct b
           end;
    first [apply emits_send | apply emits_ret].
Qed.

Lemma emits_frames_of (entry : string * Js.obj (Js.obj Js.value)) (action : string) :
  emits (_sendBulk action (fst entry) (Js.obj_get action (snd entry)))
    (frames_of entry action).
Proof.
  unfold frames_of. destruct (Js.obj_get action (snd entry)) as [values |].
  - apply emits__sendBulk.
  - apply emits_ret.
Qed.


(** What the loop of [_sendBulk] has gathered when it ends. *)










End ConnectionProofs.

(** ** Proofs about the pub/sub core *)

Module PubSubProofs.

Import PubSubCore PubSubExamples.

(** The loop of [publish] rewrites the array from index [i] on. *)
Lemma prefix_loop_from (pre : string) (n i : nat) (channels : list string) :
  i + n = length channels ->
  prefix_loop pre i n channels
  = take i channels ++ map (fun channel => pre +:+ " " +:+ channel) (drop i channels).
Proof.
  revert i channels. induction n as [| n IH]; intros i channels Hlen; simpl.
  - rewrite drop_ge by lia. rewrite take_ge by lia. rewrite app_nil_r. reflexivity.
  - destruct (lookup_lt_is_Some_2 channels i) as [channel Hi]; [lia |].
    rewrite Hi, IH by (rewrite length_insert; lia).
    rewrite (take_S_r _ i (pre +:+ " " +:+ channel))
      by (apply list_lookup_insert_eq; lia).
    rewrite take_insert_ge, drop_insert_lt by lia.
    rewrite (drop_S channels channel i Hi). simpl.
    rewrite <- app_assoc. reflexivity.
Qed.

Lemma prefix_loop_all (pre : string) (channels : list string) :
  prefix_loop pre 0 (length channels) channels
  = map (fun channel => pre +:+ " " +:+ channel) channels.
Proof. rewrite prefix_loop_from by lia. rewrite take_0, drop_0. reflexivity. Qed.

(** C9. [publish] with a prefix in force (a non-empty string, the test
    being [if (this.prefix)]) replaces, in the caller's own array, every
    channel by [prefix + ' ' + channel], and the transport's [_publish] is
    then given that same array, already rewritten. Without a prefix the
    array is passed on as it is and no array changes. *)
Theorem C9_publish_prefixes_the_callers_array
    (p : PubSub) (channels : nat) (names : list string)
    (data : Js.value) (callback : nat) :
  arrays p !! channels = Some names ->
  let p' := publish channels data callback p in
  (forall pre, prefix p = Some pre -> pre <> "" ->
      arrays p' !! channels = Some (map (fun name => pre +:+ " " +:+ name) names)
      /\ (forall other, other <> channels -> arrays p' !! other = arrays p !! other)
      /\ trace p' = trace p
           ++ [Transport_publish channels
                 (map (fun name => pre +:+ " " +:+ name) names) data callback])
  /\ (prefix p = None \/ prefix p = Some "" ->
      arrays p' = arrays p
      /\ trace p' = trace p ++ [Transport_publish channels names data callback]).
Proof.
  intros Hnames p'. subst p'. unfold publish. split.
  - intros pre Hpre Hne. unfold truthy_prefix. rewrite Hpre.
    apply String.eqb_neq in Hne. rewrite Hne. simpl.
    rewrite lookup_alter_eq, Hnames. simpl. rewrite prefix_loop_all.
    split_and!; [reflexivity | | reflexivity].
    intros other Hother. rewrite lookup_alter_ne by congruence. reflexivity.
  - intros Hnone. unfold truthy_prefix.
    destruct Hnone as [-> | ->]; simpl; rewrite Hnames; split; reflexivity.
Qed.

(** Instance of C9: publishing to [["room"; "lobby"]] under prefix "app". *)
Lemma C9_witness_app_prefix :
  arrays publisher !! 0%nat = Some ["room"; "lobby"]
  /\ arrays (publish 0 Js.Null 1 publisher) !! 0%nat = Some ["app room"; "app lobby"]
  /\ trace (publish 0 Js.Null 1 publisher)
     = [Transport_publish 0 ["app room"; "app lobby"] Js.Null 1].
Proof.
  assert (Hnames : arrays publisher !! 0%nat = Some ["room"; "lobby"]) by reflexivity.
  split; [exact Hnames |].
  destruct (C9_publish_prefixes_the_callers_array publisher 0 _ Js.Null 1 Hnames)
    as (Hprefixed & _).
  destruct (Hprefixed "app") as (Harray & _ & Htrace); [reflexivity | discriminate |].
  split; [exact Harray | exact Htrace].
Defined.

(** What the queued function of [subscribe] does when its tick comes. *)
Lemma run_task_creates_and_calls_back (channel : string) (callback : nat) (q : PubSub) :
  let stream := {| stream_id := nextStreamId q |} in
  let q' := run_task (CreateStreamAndCallBack channel callback) q in
  trace q' = trace q ++ [NewOpStream stream channel;
                         CallBack callback Js.Null (Some stream)]
  /\ streams q' !! channel
     = Some (<[nextStreamId q := stream]> (default ∅ (streams q !! channel)))
  /\ nextStreamId q' = (nextStreamId q + 1)%Z
  /\ streamsCount q' = (streamsCount q + 1)%Z
  /\ subscribed q' = subscribed q
  /\ ticks q' = ticks q.
Proof.
  simpl. split_and!; try reflexivity.
  - rewrite <- app_assoc. reflexivity.
  - apply lookup_insert_eq.
Qed.

(** C7. [subscribe] on a channel whose [subscribed] flag (looked up under
    the prefixed name) is true makes no call at all before it returns:
    neither the transport's [_subscribe] nor the callback. It only queues
    one function for a later tick. When the event loop runs that function,
    in whatever state the pub/sub then is, it creates a new stream with the
    next stream id, registers it under the channel, and calls the callback
    with [null] and that stream; it makes no transport call either. *)
Theorem C7_subscribe_on_subscribed_channel_calls_back_next_tick
    (p : PubSub) (channel : string) (callback : nat) :
  subscribed p !! prefixed p channel = Some true ->
  let task := CreateStreamAndCallBack (prefixed p channel) callback in
  let p' := subscribe channel callback p in
  p' = set_ticks (ticks p ++ [task]) p
  /\ trace p' = trace p
  /\ ticks p' = ticks p ++ [task]
  /\ (ticks p = [] -> run_tick p' = run_task task p)
  /\ forall q : PubSub,
       let stream := {| stream_id := nextStreamId q |} in
       let q' := run_task task q in
       trace q' = trace q ++ [NewOpStream stream (prefixed p channel);
                              CallBack callback Js.Null (Some stream)]
       /\ streams q' !! prefixed p channel
          = Some (<[nextStreamId q := stream]>
                    (default ∅ (streams q !! prefixed p channel)))
       /\ nextStreamId q' = (nextStreamId q + 1)%Z
       /\ streamsCount q' = (streamsCount q + 1)%Z.
Proof.
  intros Hsubscribed task p'.
  assert (Hp' : p' = set_ticks (ticks p ++ [task]) p).
  { subst p' task. unfold subscribe, subscribed_flag. rewrite Hsubscribed.
    reflexivity. }
  split; [exact Hp' |]. rewrite Hp'. split_and!; try reflexivity.
  - intros Hempty. unfold run_tick. simpl. rewrite Hempty. simpl.
    destruct p; simpl in *. subst. reflexivity.
  - intros q.
    destruct (run_task_creates_and_calls_back (prefixed p channel) callback q)
      as (Htrace & Hstreams & Hnext & Hcount & _).
    split_and!; assumption.
Qed.

(** Instance of C7: a second subscribe on "room" while stream 1 is open. *)
Lemma C7_witness_second_subscribe :
  subscribed one_stream !! prefixed one_stream "room" = Some true
  /\ trace (subscribe "room" 8 one_stream) = trace one_stream
  /\ ticks (subscribe "room" 8 one_stream) = [CreateStreamAndCallBack "room" 8]
  /\ trace (run_tick (subscribe "room" 8 one_stream))
     = trace one_stream
       ++ [NewOpStream {| stream_id := 2 |} "room";
           CallBack 8 Js.Null (Some {| stream_id := 2 |})].
Proof.
  assert (Hsubscribed : subscribed one_stream !! prefixed one_stream "room" = Some true)
    by reflexivity.
  split; [exact Hsubscribed |].
  destruct (C7_subscribe_on_subscribed_channel_calls_back_next_tick
              one_stream "room" 8 Hsubscribed)
    as (_ & Htrace & Hticks & Hnext & Htask).
  split; [exact Htrace |]. split; [exact Hticks |].
  rewrite Hnext by reflexivity.
  destruct (Htask one_stream) as (Hcalled & _). exact Hcalled.
Defined.

(** A subscribe on a channel that has no flag of its own, under a name
    that is not inherited, calls the transport. *)
Lemma subscribe_on_cleared_channel (p : PubSub) (channel : string) (callback : nat) :
  subscribed p !! prefixed p channel = None ->
  Js.prototype_member (prefixed p channel) = false ->
  subscribe channel callback p
  = effect (Transport_subscribe (prefixed p channel) callback) p.
Proof.
  intros Hflag Hname. unfold subscribe, subscribed_flag. rewrite Hflag, Hname.
  reflexivity.
Qed.

(** For a channel whose name is not inherited. When the stream that closes
    is the last one of its channel (the channel's inner map is empty once
    the stream is deleted from it), [_removeStream] decrements
    [streamsCount], deletes the channel from [streams] and from
    [subscribed], and only then calls the transport's [_unsubscribe]: the
    call is made on a state [cleared] in which the flag is already gone. A
    [subscribe] for that channel evaluated on the resulting state, before
    or after the transport has answered the unsubscribe, therefore calls
    the transport's [_subscribe] again and queues nothing. *)
Lemma last_stream_close_clears_subscription_first
    (p : PubSub) (channel : string) (stream : OpStream) (map : gmap Z OpStream) :
  Js.prototype_member channel = false ->
  streams p !! channel = Some map ->
  delete (stream_id stream) map = ∅ ->
  let p' := _removeStream channel stream p in
  (exists cleared,
      p' = effect (Transport_unsubscribe channel) cleared
      /\ trace cleared = trace p
      /\ subscribed cleared !! channel = None
      /\ streams cleared !! channel = None)
  /\ streams p' = delete channel (streams p)
  /\ streamsCount p' = (streamsCount p - 1)%Z
  /\ subscribed p' = delete channel (subscribed p)
  /\ trace p' = trace p ++ [Transport_unsubscribe channel]
  /\ forall name callback err,
       prefixed p name = channel ->
       trace (subscribe name callback p')
       = trace p ++ [Transport_unsubscribe channel; Transport_subscribe channel callback]
       /\ ticks (subscribe name callback p') = ticks p
       /\ subscribe name callback (unsubscribe_done err p') = subscribe name callback p'.
Proof.
  intros Hplain Hmap Hlast p'.
  set (cleared :=
         set_subscribed (delete channel (subscribed p))
           (set_streams (delete channel (streams p))
              (set_streamsCount (streamsCount p - 1) p))).
  assert (Hp' : p' = effect (Transport_unsubscribe channel) cleared).
  { subst p' cleared. unfold _removeStream. rewrite Hmap, Hlast.
    unfold hasKeys. rewrite bool_decide_eq_true_2 by reflexivity. simpl.
    rewrite delete_insert_eq. reflexivity. }
  split.
  { exists cleared. split; [exact Hp' |].
    split_and!; [reflexivity | apply lookup_delete_eq | apply lookup_delete_eq]. }
  rewrite Hp'. split_and!; try reflexivity.
  intros name callback err Hname.
  assert (Hprefixed : prefixed (effect (Transport_unsubscribe channel) cleared) name
                      = channel) by exact Hname.
  unfold unsubscribe_done.
  rewrite subscribe_on_cleared_channel, Hprefixed.
  - simpl. rewrite <- app_assoc. split_and!; reflexivity.
  - rewrite Hprefixed. apply lookup_delete_eq.
  - rewrite Hprefixed. exact Hplain.
Qed.

(** Scenario S6. Stream 1, the only stream on "room", closes; the next
    subscribe on "room" goes to the transport again. *)
Lemma last_stream_close_on_room :
  streams one_stream !! "room" = Some {[ 1%Z := {| stream_id := 1 |} ]}
  /\ subscribed one_stream !! "room" = Some true
  /\ subscribed (stream_closed "room" {| stream_id := 1 |} one_stream) = ∅
  /\ streams (stream_closed "room" {| stream_id := 1 |} one_stream) = ∅
  /\ trace (subscribe "room" 8 (stream_closed "room" {| stream_id := 1 |} one_stream))
     = trace one_stream
       ++ [Transport_unsubscribe "room"; Transport_subscribe "room" 8].
Proof.
  assert (Hmap : streams one_stream !! "room" = Some {[ 1%Z := {| stream_id := 1 |} ]})
    by reflexivity.
  assert (Hlast : delete (stream_id {| stream_id := 1 |})
                    ({[ 1%Z := {| stream_id := 1 |} ]} : gmap Z OpStream) = ∅)
    by reflexivity.
  split; [exact Hmap |]. split; [reflexivity |].
  destruct (last_stream_close_clears_subscription_first
              one_stream "room" {| stream_id := 1 |} _ eq_refl Hmap Hlast)
    as (_ & Hstreams & _ & Hsubscribed & _ & Hagain).
  unfold stream_closed. split; [rewrite Hsubscribed; reflexivity |].
  split; [rewrite Hstreams; reflexivity |].
  destruct (Hagain "room" 8 Js.Null) as (Htrace & _); [reflexivity | exact Htrace].
Qed.

(** C8. The claim fails for a channel under a name that every plain object
    inherits from [Object.prototype] (['constructor'], ['toString'], ...),
    on a pub/sub without a prefix. [delete this.subscribed[channel]]
    removes own properties only, so once the channel has no flag of its
    own, as after the close of its last stream, [this.subscribed[channel]]
    is still truthy. A [subscribe] for the channel then takes the branch of
    a channel that is subscribed: it queues the creation of a stream for a
    later tick and calls nothing, the transport's [_subscribe] included. *)
Theorem C8_subscribe_on_inherited_name_skips_the_transport
    (p : PubSub) (channel : string) (callback : nat) :
  truthy_prefix p = None ->
  Js.prototype_member channel = true ->
  subscribed p !! channel = None ->
  let p' := subscribe channel callback p in
  p' = set_ticks (ticks p ++ [CreateStreamAndCallBack channel callback]) p
  /\ trace p' = trace p
  /\ subscribed p' !! channel = None.
Proof.
  intros Hprefix Hname Hflag p'.
  assert (Hp' : p' = set_ticks (ticks p ++ [CreateStreamAndCallBack channel callback]) p).
  { subst p'. unfold subscribe, subscribed_flag, prefixed.
    rewrite Hprefix, Hflag, Hname. reflexivity. }
  rewrite Hp'. split_and!; [reflexivity | reflexivity | exact Hflag].
Qed.

(** Instance of C8: ['constructor'] on a pub/sub without a prefix, in the
    state it has before any subscription and again after every close that
    leaves the channel without a flag of its own. *)
Lemma C8_witness_constructor :
  subscribe "constructor" 8 (new_PubSub None)
  = set_ticks [CreateStreamAndCallBack "constructor" 8] (new_PubSub None)
  /\ trace (subscribe "constructor" 8 (new_PubSub None)) = [].
Proof.
  destruct (C8_subscribe_on_inherited_name_skips_the_transport
              (new_PubSub None) "constructor" 8 eq_refl eq_refl eq_refl)
    as (Hrun & Htrace & _).
  split; [exact Hrun | exact Htrace].
Defined.

End PubSubProofs.

(** ** Further properties of the connection *)

Module ConnectionBehaviour.

Import ClientConnection StateMachineSpec Reasoning Behaviour Examples ConnectionProofs.

(** *** Methods that only call collaborators *)

Lemma set_trace_same (c : Connection) : set_trace (trace c) c = c.
Proof. destruct c. reflexivity. Qed.

Lemma only_calls_ret {A : Type} (a : A) : only_calls (mret a : M A).
Proof.
  intros c. exists a, []. rewrite app_nil_r, set_trace_same. reflexivity.
Qed.

Lemma only_calls_gets {A : Type} (f : Connection -> A) : only_calls (gets f).
Proof.
  intros c. exists (f c), []. rewrite app_nil_r, set_trace_same. reflexivity.
Qed.

Lemma only_calls_effect (e : Effect) : only_calls (effect e).
Proof. intros c. exists tt, [e]. reflexivity. Qed.

Lemma only_calls_bind {A B : Type} (m : M A) (k : A -> M B) :
  only_calls m -> (forall a, only_calls (k a)) -> only_calls (m ≫= k).
Proof.
  intros Hm Hk c.
  destruct (Hm c) as (a & calls1 & Hrun1).
  destruct (Hk a (set_trace (trace c ++ calls1) c)) as (b & calls2 & Hrun2).
  exists b, (calls1 ++ calls2).
  rewrite run_bind, Hrun1, Hrun2. simpl. rewrite app_assoc. reflexivity.
Qed.

Lemma only_calls_when (b : bool) (m : M unit) :
  only_calls m -> only_calls (when b m).
Proof. intros Hm. destruct b; [exact Hm | apply only_calls_ret]. Qed.

Lemma only_calls_for_each {A : Type} (xs : list A) (body : A -> M unit) :
  (forall x, only_calls (body x)) -> only_calls (for_each xs body).
Proof.
  intros Hbody. induction xs as [| x xs IH]; simpl.
  - apply only_calls_ret.
  - apply only_calls_bind; [apply Hbody | intros _; exact IH].
Qed.

(** Only the event ['error'] can make [emit] throw. *)
Lemma only_calls_emit (event : string) (args : list Arg) :
  event <> "error" -> only_calls (emit event args).
Proof.
  intros Hevent c. exists tt, [Emit event args]. rewrite run_emit.
  apply String.eqb_neq in Hevent. rewrite Hevent. reflexivity.
Qed.

Lemma only_calls_try_catch (m : M unit) (handler : Arg -> M unit) :
  (forall c, exists calls r, m c = (set_trace (trace c ++ calls) c, r)) ->
  (forall e, only_calls (handler e)) ->
  only_calls (try_catch m handler).
Proof.
  intros Hm Hh c. destruct (Hm c) as (calls1 & r & Hrun). unfold try_catch.
  rewrite Hrun. destruct r as [[] | e].
  - exists tt, calls1. reflexivity.
  - destruct (Hh e (set_trace (trace c ++ calls1) c)) as ([] & calls2 & Hrun2).
    exists tt, (calls1 ++ calls2). rewrite Hrun2. simpl.
    rewrite app_assoc. reflexivity.
Qed.

Create HintDb calls discriminated.
#[local] Hint Resolve only_calls_ret only_calls_gets only_calls_effect
  only_calls_when : calls.

Ltac only_calls_steps :=
  repeat first
    [ solve [auto with calls]
    | apply only_calls_bind; [| intros ? ]
    | apply only_calls_for_each; intros ?
    | progress cbv beta
    | match goal with
      | |- only_calls (match ?x with _ => _ end) => destruct x
      | |- only_calls (if ?b then _ else _) => destruct b
      end ].

Lemma only_calls__handleBulkMessage (message : Js.value) (method : string) :
  only_calls (_handleBulkMessage message method).
Proof. unfold _handleBulkMessage. only_calls_steps. Qed.
#[local] Hint Resolve only_calls__handleBulkMessage : calls.

(** *** The dispatcher on messages other than [init] *)

Section DispatchBehaviour.

Variable types_map : Js.obj nat.
Variable types_defaultType : nat.

#[local] Abbreviation handleMessage := (handleMessage types_map types_defaultType).
#[local] Abbreviation socket_onmessage := (socket_onmessage types_map types_defaultType).









(** *** The message handler of the socket *)

Lemma outcome_after_calls {A : Type} (m : M A) (k : A -> M unit) :
  only_calls m ->
  (forall a c, outcome (k a) c = Normal tt) ->
  forall c, outcome (m ≫= k) c = Normal tt.
Proof.
  intros Hm Hk c. destruct (Hm c) as (a & calls & Hrun).
  unfold outcome. rewrite run_bind, Hrun. apply Hk.
Qed.

(** X5. [socket.onmessage] never throws into the socket: a frame that does not
    parse is only logged, a request whose data the ['receive'] listeners
    left falsy is not dispatched, and an exception of the dispatcher is put
    off to an ['error'] event on the next tick. *)
Theorem onmessage_never_throws
    (event : SocketData) (after_receive : Js.value -> Js.value) (c : Connection) :
  outcome (socket_onmessage event after_receive) c = Normal tt
  /\ (forall text, event = Unparsable text ->
        exec (socket_onmessage event after_receive) c
        = set_trace (trace c ++ [ConsoleWarn "Failed to parse message" (Js.Str text)]) c)
  /\ (forall data, event = Decoded data ->
        Js.truthy (after_receive data) = false ->
        exec (socket_onmessage event after_receive) c
        = set_trace
            (trace c
             ++ (if debug c then [ConsoleLog "RECV" data] else [])
             ++ [Emit "receive" [AVal (Js.Obj [("data", data)])]]) c).
Proof.
  split_and!.
  - destruct event as [text | data]; [reflexivity |].
    unfold ClientConnection.socket_onmessage.
    apply outcome_after_calls; [apply only_calls_gets |]. intros d c1.
    apply outcome_after_calls; [apply only_calls_when, only_calls_effect |].
    intros _ c2.
    apply outcome_after_calls; [apply only_calls_emit; discriminate |].
    intros _ c3.
    destruct (negb (Js.truthy (after_receive data))); [reflexivity |].
    unfold outcome, try_catch.
    destruct (ClientConnection.handleMessage _ _ _ c3) as [c4 [[] | e]]; reflexivity.
  - intros text ->. reflexivity.
  - intros data -> Hfalsy. unfold ClientConnection.socket_onmessage, exec.
    rewrite run_gets_bind, Hfalsy.
    destruct (debug c);
      cbv [when effect modify emit gets mbind conn_bind mret conn_ret negb];
      cbn [String.eqb Ascii.eqb Bool.eqb andb fst trace set_trace app];
      rewrite <- ?app_assoc; reflexivity.
Qed.

End DispatchBehaviour.

(** *** Accepted transitions *)

Lemma illegal_transition_test_false (old new : string) :
  ~ illegal_transition old new ->
  (String.eqb new "connecting"
   && negb (String.eqb old "disconnected")
   && negb (String.eqb old "stopped")
   && negb (String.eqb old "closed"))
  || (String.eqb new "connected" && negb (String.eqb old "connecting")) = false.
Proof.
  intros Hlegal. apply not_true_is_false. intros Htest. apply Hlegal.
  apply orb_true_iff in Htest as [Htest | Htest].
  - left.
    apply andb_true_iff in Htest as [Htest H3].
    apply andb_true_iff in Htest as [Htest H2].
    apply andb_true_iff in Htest as [Hnew H1].
    apply String.eqb_eq in Hnew.
    apply negb_true_iff, String.eqb_neq in H1, H2, H3.
    split_and!; assumption.
  - right.
    apply andb_true_iff in Htest as [Hnew H1].
    apply String.eqb_eq in Hnew. apply negb_true_iff, String.eqb_neq in H1.
    split; assumption.
Qed.

Lemma _setState_accepted (newState : string) (reason : Js.value) (c : Connection) :
  accepted_transition (state c) newState ->
  _setState newState reason c = announce newState reason (entered newState c).
Proof.
  intros [Hne Hlegal]. unfold _setState. rewrite run_gets_bind.
  apply String.eqb_neq in Hne. rewrite Hne.
  rewrite (illegal_transition_test_false _ _ Hlegal). unfold entered. cbv zeta.
  destruct (String.eqb newState "disconnected" || String.eqb newState "stopped"
            || String.eqb newState "closed"); reflexivity.
Qed.

Lemma run_emit_ok (event : string) (args : list Arg) (c : Connection) :
  event <> "error" ->
  emit event args c = (set_trace (trace c ++ [Emit event args]) c, Normal tt).
Proof.
  intros Hevent. rewrite run_emit. apply String.eqb_neq in Hevent.
  rewrite Hevent. reflexivity.
Qed.

Lemma run_for_each_effects {A : Type} (xs : list A) (f : A -> Effect) (c : Connection) :
  for_each xs (fun x => effect (f x)) c
  = (set_trace (trace c ++ map f xs) c, Normal tt).
Proof.
  revert c. induction xs as [| x xs IH]; intros c; simpl.
  - rewrite app_nil_r, set_trace_same. reflexivity.
  - rewrite run_bind. unfold effect at 1, modify. rewrite IH. simpl.
    rewrite <- app_assoc. reflexivity.
Qed.

Lemma run_for_each_nested_effects {A B : Type} (xs : list A) (inner : A -> list B)
    (f : B -> Effect) (c : Connection) :
  for_each xs (fun x => for_each (inner x) (fun y => effect (f y))) c
  = (set_trace (trace c ++ flat_map (fun x => map f (inner x)) xs) c, Normal tt).
Proof.
  revert c. induction xs as [| x xs IH]; intros c; simpl.
  - rewrite app_nil_r, set_trace_same. reflexivity.
  - rewrite run_bind, run_for_each_effects, IH. simpl.
    rewrite <- app_assoc. reflexivity.
Qed.

(** The notifications of [announce], run on any state. *)
Lemma run_notifications (k : M unit) (c : Connection) :
  (qs ← gets queries;
   for_each qs (fun entry =>
     effect (QueryCall (snd entry) "_onConnectionStateChanged" [])) ;;
   cs ← gets collections;
   for_each cs (fun entry =>
     for_each (snd entry) (fun d =>
       effect (DocCall (snd d) "_onConnectionStateChanged" []))) ;;
   k) c
  = k (set_trace (trace c ++ notifications c) c).
Proof.
  rewrite run_gets_bind, run_bind.
  rewrite (run_for_each_effects (queries c)
             (fun entry => QueryCall (snd entry) "_onConnectionStateChanged" [])).
  rewrite run_gets_bind, run_bind.
  cbn [collections set_trace].
  rewrite (run_for_each_nested_effects (collections c) snd
             (fun d => DocCall (snd d) "_onConnectionStateChanged" [])).
  cbn [trace set_trace]. unfold notifications. rewrite <- app_assoc. reflexivity.
Qed.

Lemma sent_frames_notifications (c : Connection) :
  sent_frames (notifications c) = [].
Proof.
  unfold notifications. rewrite sent_frames_app.
  assert (Hq : forall qs : Js.obj nat,
             sent_frames (map (fun entry => QueryCall (snd entry)
                                  "_onConnectionStateChanged" []) qs) = []).
  { induction qs as [| q qs IH]; [reflexivity | exact IH]. }
  rewrite Hq. simpl.
  induction (collections c) as [| [collection docs] cs IH]; [reflexivity |].
  simpl. rewrite sent_frames_app, IH, app_nil_r.
  induction docs as [| d docs IHd]; [reflexivity | exact IHd].
Qed.

(** [endBulk] on a bound connection returns, having sent the frames of the
    accumulator and closed the window. *)
Lemma endBulk_runs (c : Connection) (s : Socket) :
  socket c = Some s ->
  exists c',
    endBulk c = (c', Normal tt)
    /\ fields c' = fields c
    /\ bulk c' = None
    /\ sent_frames (trace c') = sent_frames (trace c) ++ flush_frames (bulk c).
Proof.
  intros Hs. unfold endBulk. rewrite run_gets_bind.
  destruct (bulk c) as [b |] eqn:Hb.
  - assert (Hloop : emits
              (for_each b (fun entry : string * Js.obj (Js.obj Js.value) =>
                 let (collection, actions) := entry in
                 _sendBulk "f" collection (Js.obj_get "f" actions) ;;
                 _sendBulk "s" collection (Js.obj_get "s" actions) ;;
                 _sendBulk "u" collection (Js.obj_get "u" actions)))
              (flush_frames (Some b))).
    { apply emits_for_each. intros [collection actions].
      apply emits_seq; [| apply emits_seq];
        apply (emits_frames_of (collection, actions)). }
    destruct (Hloop c s Hs) as (c' & Hrun & (Hfields & _ & Hsent)).
    exists (set_bulk None c'). rewrite run_bind, Hrun.
    split_and!; [reflexivity | exact Hfields | reflexivity | exact Hsent].
  - exists (set_bulk None c). split_and!; try reflexivity.
    unfold flush_frames. simpl. rewrite app_nil_r. reflexivity.
Qed.

Lemma accepted_transition_runs
    (c : Connection) (s : Socket) (newState : string) (reason : Js.value) :
  accepted_transition (state c) newState ->
  newState <> "error" ->
  socket c = Some s ->
  exists c',
    _setState newState reason c = (c', Normal tt)
    /\ fields c' = fields (entered newState c)
    /\ state c' = newState
    /\ canSend c' = String.eqb newState "connected"
    /\ bulk c' = None
    /\ sent_frames (trace c') = sent_frames (trace c) ++ flush_frames (bulk c).
Proof.
  intros Haccepted Hname Hs. rewrite (_setState_accepted _ _ _ Haccepted).
  assert (Hentered : socket (entered newState c) = Some s
                     /\ bulk (entered newState c) = bulk c
                     /\ trace (entered newState c) = trace c
                     /\ state (entered newState c) = newState
                     /\ canSend (entered newState c) = String.eqb newState "connected").
  { unfold entered. cbv zeta.
    destruct (String.eqb newState "disconnected" || String.eqb newState "stopped"
              || String.eqb newState "closed"); split_and!; try reflexivity; exact Hs. }
  destruct Hentered as (Hs1 & Hb1 & Ht1 & Hstate1 & HcanSend1).
  revert Hs1 Hb1 Ht1 Hstate1 HcanSend1. generalize (entered newState c). intros c1 Hs1 Hb1 Ht1 Hstate1 HcanSend1.
  unfold announce. rewrite run_bind.
  set (c2 := set_bulk (Some (default [] (bulk c1))) c1).
  assert (Hstart : startBulk c1 = (c2, Normal tt)).
  { unfold startBulk. rewrite run_gets_bind. subst c2.
    destruct c1 as [? ? ? ? ? ? ? ? ? ? [b |] ? ? ? ?]; reflexivity. }
  rewrite Hstart, run_notifications, run_bind.
  destruct (endBulk_runs (set_trace (trace c2 ++ notifications c2) c2) s Hs1)
    as (c3 & Hrun3 & Hfields3 & Hbulk3 & Hsent3).
  rewrite Hrun3, run_bind, (run_emit_ok newState _ _ Hname).
  rewrite run_emit_ok by discriminate.
  eexists. split; [reflexivity |].
  apply fields_eq in Hfields3 as Hproj.
  destruct Hproj as (_ & _ & _ & _ & _ & Hstate3 & HcanSend3).
  split_and!.
  - exact Hfields3.
  - cbn [state set_trace]. rewrite Hstate3. exact Hstate1.
  - cbn [canSend set_trace]. rewrite HcanSend3. exact HcanSend1.
  - exact Hbulk3.
  - cbn [trace set_trace]. rewrite !sent_frames_app, Hsent3.
    cbn [trace set_trace]. rewrite sent_frames_app, sent_frames_notifications.
    subst c2. cbn [trace bulk set_bulk sent_frames flat_map app].
    rewrite !app_nil_r, Ht1, Hb1.
    unfold flush_frames. destruct (bulk c); reflexivity.
Qed.

(** *** The close handler of the socket *)

Lemma state_after_closing_transition (c : Connection) (target : string)
    (reason : Js.value) :
  closing_state target -> state (exec (_setState target reason) c) = target.
Proof.
  intros Hclosing. destruct (String.eqb_spec (state c) target) as [Hsame | Hne].
  - unfold exec. rewrite (_setState_same _ _ _ Hsame). exact Hsame.
  - unfold exec. rewrite (_setState_closing _ _ _ Hne Hclosing).
    pose proof (keeps_fields (announce target reason)
                  (set_agent None (set_id Js.Null (set_seq 1
                     (set_canSend false (set_state target c)))))
                  (keeps_announce target reason)) as H.
    apply fields_eq in H. destruct H as (_ & _ & _ & _ & _ & Hstate & _).
    exact Hstate.
Qed.

(** X8. Whatever state the connection is in, after [socket.onclose(reason)]
    its state is the one the reason stands for: ['closed'] for "closed" and
    "Closed", ['stopped'] for "stopped" and "Stopped by server",
    ['disconnected'] for anything else, a non-string reason included. *)
Theorem onclose_maps_the_reason_to_the_state (c : Connection) (reason : Js.value) :
  let c' := exec (socket_onclose reason) c in
  (reason = Js.Str "closed" \/ reason = Js.Str "Closed" -> state c' = "closed")
  /\ (reason = Js.Str "stopped" \/ reason = Js.Str "Stopped by server" ->
      state c' = "stopped")
  /\ (reason <> Js.Str "closed" -> reason <> Js.Str "Closed" ->
      reason <> Js.Str "stopped" -> reason <> Js.Str "Stopped by server" ->
      state c' = "disconnected").
Proof.
  cbv zeta. split_and!.
  - intros [-> | ->]; apply state_after_closing_transition; right; left; reflexivity.
  - intros [-> | ->]; apply state_after_closing_transition; right; right; reflexivity.
  - intros H1 H2 H3 H4.
    assert (Hstr : forall lit, reason <> Js.Str lit -> Js.is_str lit reason = false).
    { intros lit Hlit. destruct reason; try reflexivity. simpl.
      apply String.eqb_neq. congruence. }
    unfold socket_onclose. rewrite !Hstr by assumption. simpl.
    apply state_after_closing_transition. left. reflexivity.
Qed.

(** *** Construction and rebinding *)

(** The constructor's call of [bindToSocket], run. *)
Lemma run_constructor (socket0 : Socket) :
  bindToSocket socket0 (constructed socket0)
  = (set_bound true
       (set_trace [SocketBind (sock_ref socket0)]
          (set_socket (Some socket0) (constructed socket0))),
     Normal tt).
Proof.
  unfold bindToSocket. rewrite run_gets_bind. cbn [socket constructed].
  cbv [mbind conn_bind modify mret conn_ret].
  rewrite _setState_same by reflexivity. reflexivity.
Qed.

(** X9. [new Connection(socket)] emits no event and calls nothing but the
    installation of the handlers, for every socket. The connection starts
    ['connecting'] exactly when the ready-state is the number 0 or 1 and
    ['disconnected'] otherwise; it cannot send, has sequence number 1, no
    id, no agent, no bulk window and empty registries. *)
Theorem constructor_derives_the_state_from_the_socket (socket0 : Socket) :
  new_Connection socket0
  = set_bound true
      (set_trace [SocketBind (sock_ref socket0)]
         (set_socket (Some socket0) (constructed socket0)))
  /\ outcome (bindToSocket socket0) (constructed socket0) = Normal tt
  /\ (readyState socket0 = Js.Num 0 \/ readyState socket0 = Js.Num 1 ->
      state (new_Connection socket0) = "connecting")
  /\ (readyState socket0 <> Js.Num 0 -> readyState socket0 <> Js.Num 1 ->
      state (new_Connection socket0) = "disconnected").
Proof.
  unfold new_Connection, exec, outcome. rewrite run_constructor. cbn [fst snd].
  split_and!; try reflexivity.
  - intros [H | H]; cbn [state set_bound set_trace set_socket constructed];
      unfold connectionState; rewrite H; reflexivity.
  - intros H0 H1. cbn [state set_bound set_trace set_socket constructed].
    unfold connectionState.
    assert (Hnum : forall n, readyState socket0 <> Js.Num n ->
                             Js.is_num n (readyState socket0) = false).
    { intros n Hn. destruct (readyState socket0); try reflexivity. simpl.
      apply Z.eqb_neq. congruence. }
    rewrite !Hnum by assumption. reflexivity.
Qed.

Lemma closing_is_accepted (old new : string) :
  closing_state new -> old <> new -> accepted_transition old new.
Proof.
  intros Hclosing Hne. split; [exact Hne |].
  intros [(-> & _) | (-> & _)]; destruct Hclosing as [H | [H | H]]; discriminate H.
Qed.

Lemma connecting_from_closing_is_accepted (old : string) :
  closing_state old -> accepted_transition old "connecting".
Proof.
  intros Hclosing. split.
  - destruct Hclosing as [-> | [-> | ->]]; discriminate.
  - intros [(_ & H1 & H2 & H3) | (H & _)]; [| discriminate H].
    destruct Hclosing as [H | [H | H]]; congruence.
Qed.

(** A transition into a closing state on a bound connection returns. *)
Lemma closing_transition_runs (c : Connection) (s : Socket) (target : string)
    (reason : Js.value) :
  closing_state target ->
  socket c = Some s ->
  exists c',
    _setState target reason c = (c', Normal tt)
    /\ state c' = target
    /\ socket c' = Some s
    /\ (state c <> target -> id c' = Js.Null /\ seq c' = 1%Z).
Proof.
  intros Hclosing Hs.
  destruct (String.eqb_spec (state c) target) as [Hsame | Hne].
  - exists c. rewrite (_setState_same _ _ _ Hsame).
    split_and!; [reflexivity | exact Hsame | exact Hs | contradiction].
  - assert (Hname : target <> "error")
      by (destruct Hclosing as [-> | [-> | ->]]; discriminate).
    destruct (accepted_transition_runs
                c s target reason (closing_is_accepted _ _ Hclosing Hne) Hname Hs)
      as (c' & Hrun & Hfields & Hstate & _).
    exists c'. split; [exact Hrun |]. split; [exact Hstate |].
    unfold fields in Hfields.
    injection Hfields as _ _ _ Hseq Hid _ _ _ Hsocket _ _ _ _.
    assert (Hreset : id (entered target c) = Js.Null /\ seq (entered target c) = 1%Z
                     /\ socket (entered target c) = Some s).
    { unfold entered. cbv zeta.
      destruct Hclosing as [-> | [-> | ->]]; split_and!; first [reflexivity | exact Hs]. }
    destruct Hreset as (Hid1 & Hseq1 & Hs1).
    split; [congruence |]. intros _. split; congruence.
Qed.

Lemma onclose_is_a_closing_transition (reason : Js.value) :
  exists target,
    closing_state target /\ socket_onclose reason = _setState target reason.
Proof.
  unfold socket_onclose.
  destruct (Js.is_str "closed" reason || Js.is_str "Closed" reason).
  - exists "closed". split; [right; left |]; reflexivity.
  - destruct (Js.is_str "stopped" reason || Js.is_str "Stopped by server" reason).
    + exists "stopped". split; [right; right |]; reflexivity.
    + exists "disconnected". split; [left |]; reflexivity.
Qed.

(** X10. Rebinding to an opening or open socket succeeds when the socket being
    replaced delivers its close event from within [close()]: the close
    handler brings the connection into a closing state first, from which
    ['connecting'] is legal. [bindToSocket] then returns with the state
    ['connecting'], [canSend] false and the handlers on the new socket; a
    connection that was ['connected'] has lost its id and has sequence
    number 1 again. *)
Theorem rebinding_after_a_synchronous_close_reconnects
    (c : Connection) (old new : Socket) (reason : Js.value) :
  socket c = Some old ->
  bound c = true ->
  close_fires old = Some reason ->
  readyState new = Js.Num 0 \/ readyState new = Js.Num 1 ->
  exists c',
    bindToSocket new c = (c', Normal tt)
    /\ state c' = "connecting"
    /\ canSend c' = false
    /\ socket c' = Some new
    /\ bound c' = true
    /\ (state c = "connected" -> id c' = Js.Null /\ seq c' = 1%Z).
Proof.
  intros Hold Hbound Hfires Hready.
  assert (Hnew : connectionState new = "connecting").
  { unfold connectionState. destruct Hready as [-> | ->]; reflexivity. }
  destruct (onclose_is_a_closing_transition reason) as (target & Hclosing & Honclose).
  set (c0 := set_trace (trace c ++ [SocketClose (sock_ref old)]) c).
  destruct (closing_transition_runs c0 old target reason Hclosing Hold)
    as (c1 & Hrun1 & Hstate1 & Hsocket1 & Hreset1).
  set (c2 := set_socket (Some new)
               (set_bound false
                  (set_trace (trace c1 ++ [SocketUnbind (sock_ref old)]) c1))).
  assert (Haccepted : accepted_transition (state c2) "connecting").
  { subst c2. cbn [state set_socket set_bound set_trace]. rewrite Hstate1.
    apply connecting_from_closing_is_accepted, Hclosing. }
  destruct (accepted_transition_runs
              c2 new "connecting" Js.Undefined Haccepted) as
    (c3 & Hrun3 & Hfields3 & Hstate3 & _); [discriminate | reflexivity |].
  exists (set_bound true
            (set_trace (trace c3 ++ [SocketBind (sock_ref new)])
               (set_canSend false c3))).
  split.
  - assert (Hclose : socket_close old c = (c1, Normal tt)).
    { unfold socket_close. rewrite run_bind. unfold effect at 1, modify at 1.
      rewrite run_gets_bind. cbn [bound set_trace]. rewrite Hbound, Hfires.
      cbn [when]. rewrite Honclose. exact Hrun1. }
    unfold bindToSocket. rewrite run_gets_bind, Hold.
    cbv [mbind conn_bind modify effect mret conn_ret]. rewrite Hclose, Hnew.
    subst c2. rewrite Hrun3. reflexivity.
  - unfold fields in Hfields3.
    injection Hfields3 as _ _ _ Hseq Hid _ _ _ Hsocket _ _ _ _.
    split_and!; try reflexivity.
    + exact Hstate3.
    + cbn [socket set_bound set_trace set_canSend]. rewrite Hsocket. reflexivity.
    + intros Hconnected.
      destruct Hreset1 as [Hid1 Hseq1].
      { subst c0. cbn [state set_trace]. rewrite Hconnected.
        destruct Hclosing as [-> | [-> | ->]]; discriminate. }
      cbn [id seq set_bound set_trace set_canSend]. rewrite Hid, Hseq.
      split; [exact Hid1 | exact Hseq1].
Qed.

(** *** Objects: assignment, lookup and deletion *)

Section ObjectFacts.

Context {A : Type}.

Lemma obj_get_replace_eq (k : string) (v : A) (o : Js.obj A) :
  Js.obj_has k o = true -> Js.obj_get k (Js.obj_replace k v o) = Some v.
Proof.
  unfold Js.obj_has. induction o as [| [k0 v0] o IH]; simpl; [discriminate |].
  destruct (String.eqb k k0) eqn:Hk; simpl.
  - rewrite String.eqb_refl. reflexivity.
  - rewrite Hk. exact IH.
Qed.

Lemma obj_get_insert_eq (k : string) (v : A) (o : Js.obj A) :
  Js.obj_get k o = None -> Js.obj_get k (Js.obj_insert k v o) = Some v.
Proof.
  induction o as [| [k0 v0] o IH]; simpl.
  - rewrite String.eqb_refl. reflexivity.
  - destruct (String.eqb k k0) eqn:Hk; [discriminate |]. intros Hnone.
    destruct (Js.key_before k k0); simpl.
    + rewrite String.eqb_refl. reflexivity.
    + rewrite Hk. apply IH, Hnone.
Qed.

Lemma obj_get_set_eq (k : string) (v : A) (o : Js.obj A) :
  Js.obj_get k (Js.obj_set k v o) = Some v.
Proof.
  unfold Js.obj_set. destruct (Js.obj_has k o) eqn:Hhas.
  - apply obj_get_replace_eq, Hhas.
  - apply obj_get_insert_eq. unfold Js.obj_has in Hhas.
    destruct (Js.obj_get k o); [discriminate | reflexivity].
Qed.

Lemma obj_get_replace_ne (k k' : string) (v : A) (o : Js.obj A) :
  k <> k' -> Js.obj_get k (Js.obj_replace k' v o) = Js.obj_get k o.
Proof.
  intros Hne. induction o as [| [k0 v0] o IH]; simpl; [reflexivity |].
  destruct (String.eqb_spec k' k0) as [<- | Hk0]; simpl.
  - apply String.eqb_neq in Hne. rewrite Hne. reflexivity.
  - destruct (String.eqb k k0); [reflexivity | exact IH].
Qed.

Lemma obj_get_insert_ne (k k' : string) (v : A) (o : Js.obj A) :
  k <> k' -> Js.obj_get k (Js.obj_insert k' v o) = Js.obj_get k o.
Proof.
  intros Hne. apply String.eqb_neq in Hne.
  induction o as [| [k0 v0] o IH]; simpl.
  - rewrite Hne. reflexivity.
  - destruct (Js.key_before k' k0); simpl.
    + rewrite Hne. reflexivity.
    + destruct (String.eqb k k0); [reflexivity | exact IH].
Qed.

Lemma obj_get_set_ne (k k' : string) (v : A) (o : Js.obj A) :
  k <> k' -> Js.obj_get k (Js.obj_set k' v o) = Js.obj_get k o.
Proof.
  intros Hne. unfold Js.obj_set. destruct (Js.obj_has k' o).
  - apply obj_get_replace_ne, Hne.
  - apply obj_get_insert_ne, Hne.
Qed.


Lemma Forall_obj_replace (Q : string * A -> Prop) (k : string) (v : A) (o : Js.obj A) :
  Forall Q o -> Q (k, v) -> Forall Q (Js.obj_replace k v o).
Proof.
  intros Ho Hv. induction Ho as [| [k0 v0] o Hx Ho IH]; simpl; [constructor |].
  destruct (String.eqb k k0); constructor; assumption.
Qed.

Lemma Forall_obj_insert (Q : string * A -> Prop) (k : string) (v : A) (o : Js.obj A) :
  Forall Q o -> Q (k, v) -> Forall Q (Js.obj_insert k v o).
Proof.
  intros Ho Hv. induction Ho as [| [k0 v0] o Hx Ho IH]; simpl.
  - repeat constructor. exact Hv.
  - destruct (Js.key_before k k0); repeat constructor; assumption.
Qed.

Lemma Forall_obj_set (Q : string * A -> Prop) (k : string) (v : A) (o : Js.obj A) :
  Forall Q o -> Q (k, v) -> Forall Q (Js.obj_set k v o).
Proof.
  intros Ho Hv. unfold Js.obj_set. destruct (Js.obj_has k o).
  - apply Forall_obj_replace; assumption.
  - apply Forall_obj_insert; assumption.
Qed.

Lemma Forall_obj_delete (Q : string * A -> Prop) (k : string) (o : Js.obj A) :
  Forall Q o -> Forall Q (Js.obj_delete k o).
Proof.
  intros Ho. induction Ho as [| [k0 v0] o Hx Ho IH]; simpl; [constructor |].
  destruct (negb (String.eqb k k0)); [constructor |]; assumption.
Qed.

Lemma obj_set_nonempty (k : string) (v : A) (o : Js.obj A) :
  Js.obj_set k v o <> [].
Proof.
  intros Hempty. pose proof (obj_get_set_eq k v o) as Hget.
  rewrite Hempty in Hget. discriminate Hget.
Qed.

End ObjectFacts.

(** *** The document registry *)

Lemma registered_lookup (c : Connection) (collection id : string) :
  registered c collection id
  = Js.obj_get id (default [] (Js.obj_get collection (collections c))).
Proof.
  unfold registered, getExisting. simpl.
  destruct (Js.obj_get collection (collections c)); reflexivity.
Qed.

(** Storing a document under its collection and id. *)
Lemma registered_after_store (c c' : Connection) (dc di : string) (r : nat) :
  collections c'
  = Js.obj_set dc (Js.obj_set di r (default [] (Js.obj_get dc (collections c))))
      (collections c) ->
  registered c' dc di = Some r
  /\ forall collection id,
       collection <> dc \/ id <> di ->
       registered c' collection id = registered c collection id.
Proof.
  intros Hcs. split.
  - rewrite registered_lookup, Hcs, obj_get_set_eq. simpl. apply obj_get_set_eq.
  - intros collection id Hother. rewrite !registered_lookup, Hcs.
    destruct (String.eqb_spec collection dc) as [-> | Hc].
    + destruct Hother as [Hc | Hi]; [contradiction |].
      rewrite obj_get_set_eq. simpl. apply obj_get_set_ne, Hi.
    + rewrite obj_get_set_ne by exact Hc. reflexivity.
Qed.



(** [_addDoc] assigns at most the registry. *)
Lemma _addDoc_runs (doc : Doc) (c : Connection) :
  exists cs,
    _addDoc doc c = (set_collections cs c, Normal tt)
    /\ registered (set_collections cs c) (doc_collection doc) (doc_id doc)
       = Some (doc_ref doc)
    /\ _addDoc doc (set_collections cs c) = (set_collections cs c, Normal tt)
    /\ (forall collection id,
          collection <> doc_collection doc \/ id <> doc_id doc ->
          registered (set_collections cs c) collection id = registered c collection id).
Proof.
  assert (Hsame : forall c0,
             registered c0 (doc_collection doc) (doc_id doc) = Some (doc_ref doc) ->
             _addDoc doc c0 = (c0, Normal tt)).
  { intros c0. unfold registered, getExisting, _addDoc. simpl.
    rewrite run_gets_bind.
    destruct (Js.obj_get (doc_collection doc) (collections c0)) as [docs |];
      [| discriminate].
    intros ->. rewrite Nat.eqb_refl. reflexivity. }
  set (cs' := Js.obj_set (doc_collection doc)
                (Js.obj_set (doc_id doc) (doc_ref doc)
                   (default [] (Js.obj_get (doc_collection doc) (collections c))))
                (collections c)).
  destruct (registered_after_store c (set_collections cs' c)
              (doc_collection doc) (doc_id doc) (doc_ref doc))
    as [Hstored Hothers]; [reflexivity |].
  assert (Hcases : _addDoc doc c = (c, Normal tt)
                   /\ registered c (doc_collection doc) (doc_id doc) = Some (doc_ref doc)
                   \/ _addDoc doc c = (set_collections cs' c, Normal tt)).
  { unfold _addDoc at 1 2. rewrite run_gets_bind. subst cs'.
    unfold registered, getExisting. simpl.
    destruct (Js.obj_get (doc_collection doc) (collections c)) as [docs |];
      [| right; reflexivity].
    destruct (Js.obj_get (doc_id doc) docs) as [r |]; [| right; reflexivity].
    destruct (Nat.eqb_spec r (doc_ref doc)) as [-> | _]; [left | right].
    - split; reflexivity.
    - reflexivity. }
  destruct Hcases as [[Hrun Hreg] | Hrun].
  - exists (collections c).
    assert (Heta : set_collections (collections c) c = c) by (destruct c; reflexivity).
    rewrite Heta. split_and!; [exact Hrun | exact Hreg | exact Hrun | reflexivity].
  - exists cs'. split_and!; [exact Hrun | exact Hstored | apply Hsame, Hstored
                             | exact Hothers].
Qed.

(** X12. For a document with a plain collection and id, [_addDoc] makes
    the document the one registered under them, replacing a different
    object that was there, without any call or event. Doing it again
    changes nothing, and no registration under other plain names is
    touched. *)
Theorem addDoc_registers_the_document (doc : Doc) (c : Connection) :
  plain (doc_collection doc) ->
  plain (doc_id doc) ->
  exists c',
    _addDoc doc c = (c', Normal tt)
    /\ registered c' (doc_collection doc) (doc_id doc) = Some (doc_ref doc)
    /\ _addDoc doc c' = (c', Normal tt)
    /\ trace c' = trace c
    /\ (forall collection id,
          plain collection -> plain id ->
          collection <> doc_collection doc \/ id <> doc_id doc ->
          registered c' collection id = registered c collection id).
Proof.
  intros _ _.
  destruct (_addDoc_runs doc c) as (cs & Hrun & Hreg & Hagain & Hothers).
  exists (set_collections cs c).
  split_and!; [exact Hrun | exact Hreg | exact Hagain | reflexivity |].
  intros collection id _ _. apply Hothers.
Qed.



(** *** No collection without a document *)

Lemma stored_collections_nonempty (cs : Js.obj (Js.obj nat))
    (collection id : string) (r : nat) (docs : Js.obj nat) :
  Forall (fun entry => snd entry <> []) cs ->
  Forall (fun entry => snd entry <> [])
    (Js.obj_set collection (Js.obj_set id r docs) cs).
Proof. intros Hcs. apply Forall_obj_set; [exact Hcs | apply obj_set_nonempty]. Qed.

Lemma nonempty__addDoc (doc : Doc) : preserves no_empty_collection (_addDoc doc).
Proof.
  intros c Hc. unfold exec, _addDoc. rewrite run_gets_bind.
  destruct (Js.obj_get (doc_collection doc) (collections c)) as [docs |].
  - destruct (Js.obj_get (doc_id doc) docs) as [r |].
    + destruct (r =? doc_ref doc)%nat; [exact Hc |].
      apply stored_collections_nonempty, Hc.
    + apply stored_collections_nonempty, Hc.
  - apply stored_collections_nonempty, Hc.
Qed.

Lemma nonempty_get (collection id : string) :
  preserves no_empty_collection (get collection id).
Proof.
  intros c Hc. unfold exec, get. rewrite run_gets_bind. cbv beta zeta.
  destruct (registered c collection id) as [d |] eqn:Hd;
    rewrite registered_lookup in Hd; unfold Js.obj in *; rewrite Hd;
    [exact Hc |].
  unfold fresh, effect, modify. rewrite !run_bind. cbn [fst snd].
  rewrite run_emit_ok by discriminate.
  apply (stored_collections_nonempty (collections c)), Hc.
Qed.

Lemma nonempty__destroyDoc (doc : Doc) :
  preserves no_empty_collection (_destroyDoc doc).
Proof.
  intros c Hc. unfold exec, _destroyDoc. rewrite run_gets_bind.
  destruct (Js.obj_get (doc_collection doc) (collections c)) as [docs |]; [| exact Hc].
  cbv zeta. destruct (Js.hasKeys (Js.obj_delete (doc_id doc) docs)) eqn:Hkeys.
  - apply Forall_obj_set; [exact Hc |]. simpl. intros Hempty.
    rewrite Hempty in Hkeys. discriminate Hkeys.
  - apply Forall_obj_delete, Hc.
Qed.

Lemma nonempty_fresh : preserves no_empty_collection fresh.
Proof. intros c Hc. exact Hc. Qed.

Lemma nonempty__sendBulk (action collection : string)
    (values : option (Js.obj Js.value)) :
  preserves no_empty_collection (_sendBulk action collection values).
Proof.
  intros c Hc. unfold no_empty_collection.
  pose proof (keeps_fields _ c (keeps__sendBulk action collection values)) as H.
  apply fields_eq in H as (-> & _). exact Hc.
Qed.

#[local] Hint Resolve nonempty__addDoc nonempty_get nonempty__destroyDoc
  nonempty_fresh nonempty__sendBulk : live.

Lemma nonempty_socket_onclose (reason : Js.value) :
  preserves no_empty_collection (socket_onclose reason).
Proof. unfold socket_onclose. preserves_steps. Qed.

Lemma nonempty__handleBulkMessage (message : Js.value) (method : string) :
  preserves no_empty_collection (_handleBulkMessage message method).
Proof. unfold _handleBulkMessage. preserves_steps. Qed.

#[local] Hint Resolve nonempty_socket_onclose nonempty__handleBulkMessage : live.

Section RegistryInvariant.

Variable types_map : Js.obj nat.
Variable types_defaultType : nat.




End RegistryInvariant.

(** *** Outbound actions *)








(** *** Queries *)

Lemma _createQuery_runs (action collection : string) (q options : Js.value)
    (callback : nat) (c : Connection) :
  _createQuery action collection q options callback c
  = (set_trace
       (trace c
        ++ [NewQuery (next_ref c) action (nextQueryId c) collection q options callback;
            QueryCall (next_ref c) "send" []])
       (set_queries
          (Js.obj_set (pretty (nextQueryId c)) (next_ref c) (queries c))
          (set_next_ref (S (next_ref c))
             (set_nextQueryId (nextQueryId c + 1) c))),
     Normal (next_ref c)).
Proof.
  unfold _createQuery, fresh, effect, modify.
  cbv [mbind conn_bind gets mret conn_ret]. cbn. rewrite <- app_assoc. reflexivity.
Qed.

Lemma query_ids__createQuery (action collection : string) (q options : Js.value)
    (callback : nat) :
  preserves query_ids_below_counter
    (_createQuery action collection q options callback).
Proof.
  intros c [Hone Hc]. unfold exec. rewrite _createQuery_runs. cbn [fst].
  split; cbn [queries nextQueryId set_trace set_queries set_next_ref
                set_nextQueryId]; [lia |].
  intros k query.
  destruct (String.eqb_spec k (pretty (nextQueryId c))) as [-> | Hne].
  - intros _. exists (nextQueryId c). split; [reflexivity | lia].
  - rewrite obj_get_set_ne by exact Hne. intros Hq.
    destruct (Hc _ _ Hq) as (n & -> & Hrange). exists n. split; [reflexivity | lia].
Qed.

Lemma obj_get_delete_some {A : Type} (k k' : string) (o : Js.obj A) (v : A) :
  Js.obj_get k (Js.obj_delete k' o) = Some v -> Js.obj_get k o = Some v.
Proof.
  destruct (String.eqb_spec k k') as [-> | Hne].
  - rewrite obj_get_delete_eq. discriminate.
  - rewrite obj_get_delete_ne by exact Hne. trivial.
Qed.

Lemma query_ids__destroyQuery (query : Query) :
  preserves query_ids_below_counter (_destroyQuery query).
Proof.
  intros c [Hone Hc]. split; [exact Hone |].
  intros k q0 Hq0. apply obj_get_delete_some in Hq0. exact (Hc k q0 Hq0).
Qed.

Lemma query_ids_fields {A : Type} (m : M A) :
  keeps m -> preserves query_ids_below_counter m.
Proof.
  intros Hm c Hc. unfold query_ids_below_counter.
  pose proof (keeps_fields _ c Hm) as H. unfold fields in H.
  injection H as _ Hnext Hqs _ _ _ _ _ _ _ _ _ _.
  rewrite Hnext, Hqs. exact Hc.
Qed.

Lemma query_ids__addDoc (doc : Doc) :
  preserves query_ids_below_counter (_addDoc doc).
Proof.
  intros c Hc. unfold exec.
  destruct (_addDoc_runs doc c) as (cs & -> & _). exact Hc.
Qed.

Lemma query_ids_get (collection id : string) :
  preserves query_ids_below_counter (get collection id).
Proof. unfold get, fresh. preserves_steps. intros c Hc. exact Hc. Qed.

Lemma query_ids__destroyDoc (doc : Doc) :
  preserves query_ids_below_counter (_destroyDoc doc).
Proof. unfold _destroyDoc. preserves_steps. Qed.

Lemma query_ids__sendBulk (action collection : string)
    (values : option (Js.obj Js.value)) :
  preserves query_ids_below_counter (_sendBulk action collection values).
Proof. apply query_ids_fields, keeps__sendBulk. Qed.

#[local] Hint Resolve query_ids__createQuery query_ids__destroyQuery
  query_ids__addDoc query_ids_get query_ids__destroyDoc query_ids__sendBulk : live.

Lemma query_ids_socket_onclose (reason : Js.value) :
  preserves query_ids_below_counter (socket_onclose reason).
Proof. unfold socket_onclose. preserves_steps. Qed.

Lemma query_ids__handleBulkMessage (message : Js.value) (method : string) :
  preserves query_ids_below_counter (_handleBulkMessage message method).
Proof. unfold _handleBulkMessage. preserves_steps. Qed.

#[local] Hint Resolve query_ids_socket_onclose query_ids__handleBulkMessage : live.

Section Queries.

Variable types_map : Js.obj nat.
Variable types_defaultType : nat.

#[local] Abbreviation handleMessage := (handleMessage types_map types_defaultType).

Lemma query_ids_run_op (op : Op) :
  preserves query_ids_below_counter (run_op types_map types_defaultType op).
Proof.
  destruct op; unfold run_op, discard, sendFetch, sendSubscribe, sendUnsubscribe,
    createFetchQuery, createSubscribeQuery, close, socket_onmessage, socket_onopen,
    socket_onerror, ClientConnection.handleMessage;
    preserves_steps.
Qed.

Lemma query_ids_reachable (c : Connection) :
  reachable types_map types_defaultType c -> query_ids_below_counter c.
Proof.
  intros (socket0 & ops & ->). unfold run_ops.
  assert (Hstart : query_ids_below_counter (new_Connection socket0)).
  { unfold new_Connection, exec. rewrite run_constructor.
    split; [cbn; lia | intros k query Hq; discriminate Hq]. }
  revert Hstart. generalize (new_Connection socket0).
  induction ops as [| op ops IH]; intros c Hc; simpl.
  - exact Hc.
  - apply IH, query_ids_run_op, Hc.
Qed.

(** With the counter as an unbounded integer, the next id is never in
    use. *)
Lemma created_query_is_fresh
    (action collection : string) (q options : Js.value) (callback : nat)
    (c : Connection) :
  reachable types_map types_defaultType c ->
  exists c',
    _createQuery action collection q options callback c = (c', Normal (next_ref c))
    /\ Js.obj_get (pretty (nextQueryId c)) (queries c) = None
    /\ Js.obj_get (pretty (nextQueryId c)) (queries c') = Some (next_ref c)
    /\ (forall k query, Js.obj_get k (queries c) = Some query ->
          Js.obj_get k (queries c') = Some query)
    /\ nextQueryId c' = (nextQueryId c + 1)%Z
    /\ trace c'
       = trace c
         ++ [NewQuery (next_ref c) action (nextQueryId c) collection q options
               callback;
             QueryCall (next_ref c) "send" []].
Proof.
  intros Hreach. apply query_ids_reachable in Hreach as [Hone Hids].
  assert (Hfree : Js.obj_get (pretty (nextQueryId c)) (queries c) = None).
  { destruct (Js.obj_get (pretty (nextQueryId c)) (queries c)) as [q0 |] eqn:Hq0;
      [| reflexivity].
    destruct (Hids _ _ Hq0) as (n & Hn & Hrange).
    apply (inj pretty) in Hn. lia. }
  eexists. split; [apply _createQuery_runs |].
  cbn [queries nextQueryId trace set_trace set_queries set_next_ref set_nextQueryId].
  split_and!; [exact Hfree | apply obj_get_set_eq | | reflexivity | reflexivity].
  intros k query Hq. rewrite obj_get_set_ne; [exact Hq |].
  intros ->. rewrite Hfree in Hq. discriminate Hq.
Qed.

(** X18. In every state a run of public operations and socket callbacks
    can reach with the counter of query ids below 2^53, where a double
    still counts exactly, the id the next query gets is not in use:
    creating a query registers it under that id, passes the counter on,
    calls the query's [send] once, and leaves every registered query where
    it was. Ids of destroyed queries are not given out again. *)
Theorem created_query_never_replaces_a_registered_one
    (action collection : string) (q options : Js.value) (callback : nat)
    (c : Connection) :
  reachable types_map types_defaultType c ->
  (nextQueryId c < 2 ^ 53)%Z ->
  exists c',
    _createQuery action collection q options callback c = (c', Normal (next_ref c))
    /\ Js.obj_get (pretty (nextQueryId c)) (queries c) = None
    /\ Js.obj_get (pretty (nextQueryId c)) (queries c') = Some (next_ref c)
    /\ (forall k query, Js.obj_get k (queries c) = Some query ->
          Js.obj_get k (queries c') = Some query)
    /\ nextQueryId c' = (nextQueryId c + 1)%Z
    /\ trace c'
       = trace c
         ++ [NewQuery (next_ref c) action (nextQueryId c) collection q options
               callback;
             QueryCall (next_ref c) "send" []].
Proof.
  intros Hreach _.
  exact (created_query_is_fresh action collection q options callback c Hreach).
Qed.


End Queries.

(** *** Waiting for quiescence *)

Section Scans.

Import Quiescence.

Variable answers : nat -> bool.














End Scans.

End ConnectionBehaviour.

(** ** Further properties of the pub/sub core *)

Module PubSubBehaviour.

Import PubSubCore PubSubRuns PubSubDelivery PubSubExamples.

(** *** Counting the streams *)

Lemma total_delete (channels : gmap string (gmap Z OpStream)) (channel : string)
    (map : gmap Z OpStream) :
  channels !! channel = Some map ->
  total channels = (size map + total (delete channel channels))%nat.
Proof.
  intros Hmap. unfold total.
  apply (map_fold_delete_L
           (fun _ (map : gmap Z OpStream) n => (size map + n)%nat) 0%nat
           channel map channels); [intros; lia | exact Hmap].
Qed.

Lemma total_insert (channels : gmap string (gmap Z OpStream)) (channel : string)
    (map : gmap Z OpStream) :
  total (<[channel := map]> channels)
  = (size map + total (delete channel channels))%nat.
Proof.
  rewrite <- insert_delete_eq. unfold total.
  apply (map_fold_insert_L
           (fun _ (map : gmap Z OpStream) n => (size map + n)%nat) 0%nat
           channel map (delete channel channels));
    [intros; lia | apply lookup_delete_eq].
Qed.

Lemma total_default (channels : gmap string (gmap Z OpStream)) (channel : string) :
  total channels
  = (size (default ∅ (channels !! channel)) + total (delete channel channels))%nat.
Proof.
  destruct (channels !! channel) as [map |] eqn:Hmap; simpl.
  - apply total_delete, Hmap.
  - rewrite delete_id by exact Hmap. rewrite map_size_empty. reflexivity.
Qed.

(** *** The invariant of a run *)

(** The four fields after [_createStream]. *)
Lemma _createStream_fields (channel : string) (p : PubSub) :
  let p' := fst (_createStream channel p) in
  let stream := {| stream_id := nextStreamId p |} in
  snd (_createStream channel p) = stream
  /\ streams p'
     = <[channel := <[nextStreamId p := stream]> (default ∅ (streams p !! channel))]>
         (streams p)
  /\ nextStreamId p' = (nextStreamId p + 1)%Z
  /\ streamsCount p' = (streamsCount p + 1)%Z
  /\ subscribed p' = subscribed p.
Proof. simpl. split_and!; reflexivity. Qed.

Lemma created_id_is_fresh (p : PubSub) (channel : string) :
  streams_wf p ->
  default ∅ (streams p !! channel) !! nextStreamId p = None.
Proof.
  intros (_ & Hmaps & _).
  destruct (streams p !! channel) as [map |] eqn:Hmap; simpl; [| apply lookup_empty].
  destruct (map !! nextStreamId p) as [stream |] eqn:Hstream; [| reflexivity].
  destruct (Hmaps _ _ Hmap) as (_ & Hids).
  destruct (Hids _ _ Hstream) as (_ & Hrange). lia.
Qed.

Lemma streams_wf_created (p p' : PubSub) (channel : string) :
  streams_wf p ->
  streams p'
  = <[channel := <[nextStreamId p := {| stream_id := nextStreamId p |}]>
                   (default ∅ (streams p !! channel))]> (streams p) ->
  nextStreamId p' = (nextStreamId p + 1)%Z ->
  streams_wf p'.
Proof.
  intros Hwf Hstreams Hnext.
  pose proof (created_id_is_fresh p channel Hwf) as Hfresh.
  destruct Hwf as (Hone & Hmaps & Hunique).
  assert (Hold : forall channel0 map id,
             streams p !! channel0 = Some map -> is_Some (map !! id) ->
             (1 <= id < nextStreamId p)%Z).
  { intros channel0 map id Hmap [stream Hstream].
    destruct (Hmaps _ _ Hmap) as (_ & Hids). apply (Hids _ _ Hstream). }
  assert (Hnew : forall id,
             is_Some ((<[nextStreamId p := {| stream_id := nextStreamId p |}]>
                         (default ∅ (streams p !! channel))) !! id) ->
             id = nextStreamId p
             \/ exists map, streams p !! channel = Some map /\ is_Some (map !! id)).
  { intros id Hid. destruct (decide (id = nextStreamId p)) as [-> | Hne]; [left; reflexivity |].
    right. rewrite lookup_insert_ne in Hid by congruence.
    destruct (streams p !! channel) as [map |]; simpl in Hid.
    - exists map. split; [reflexivity | exact Hid].
    - rewrite lookup_empty in Hid. destruct Hid as [? Hid]. discriminate Hid. }
  unfold streams_wf. rewrite Hstreams, Hnext. split_and!.
  - lia.
  - intros channel0 map Hmap.
    destruct (decide (channel0 = channel)) as [-> | Hne].
    + rewrite lookup_insert_eq in Hmap. injection Hmap as <-.
      split; [apply insert_non_empty |].
      intros id stream Hstream.
      destruct (decide (id = nextStreamId p)) as [-> | Hid].
      * rewrite lookup_insert_eq in Hstream. injection Hstream as <-.
        simpl. split; [reflexivity | lia].
      * rewrite lookup_insert_ne in Hstream by congruence.
        destruct (streams p !! channel) as [map |] eqn:Hmap; simpl in Hstream;
          [| rewrite lookup_empty in Hstream; discriminate Hstream].
        destruct (Hmaps _ _ Hmap) as (_ & Hids).
        destruct (Hids _ _ Hstream) as (Hsame & Hrange). split; [exact Hsame | lia].
    + rewrite lookup_insert_ne in Hmap by congruence.
      destruct (Hmaps _ _ Hmap) as (Hnonempty & Hids).
      split; [exact Hnonempty |].
      intros id stream Hstream.
      destruct (Hids _ _ Hstream) as (Hsame & Hrange). split; [exact Hsame | lia].
  - intros channel1 channel2 map1 map2 id Hmap1 Hmap2 Hid1 Hid2.
    destruct (decide (channel1 = channel)) as [-> | Hne1];
      destruct (decide (channel2 = channel)) as [-> | Hne2]; [reflexivity | | |].
    + rewrite lookup_insert_eq in Hmap1. injection Hmap1 as <-.
      rewrite lookup_insert_ne in Hmap2 by congruence.
      pose proof (Hold _ _ _ Hmap2 Hid2) as Hrange.
      destruct (Hnew id Hid1) as [-> | (map & Hmap & Hid)]; [lia |].
      symmetry. exact (Hunique _ _ _ _ _ Hmap2 Hmap Hid2 Hid).
    + rewrite lookup_insert_eq in Hmap2. injection Hmap2 as <-.
      rewrite lookup_insert_ne in Hmap1 by congruence.
      pose proof (Hold _ _ _ Hmap1 Hid1) as Hrange.
      destruct (Hnew id Hid2) as [-> | (map & Hmap & Hid)]; [lia |].
      exact (Hunique _ _ _ _ _ Hmap1 Hmap Hid1 Hid).
    + rewrite lookup_insert_ne in Hmap1 by congruence.
      rewrite lookup_insert_ne in Hmap2 by congruence.
      exact (Hunique _ _ _ _ _ Hmap1 Hmap2 Hid1 Hid2).
Qed.

Lemma invariant_created (p p' : PubSub) (channel : string) :
  invariant p ->
  streams p'
  = <[channel := <[nextStreamId p := {| stream_id := nextStreamId p |}]>
                   (default ∅ (streams p !! channel))]> (streams p) ->
  nextStreamId p' = (nextStreamId p + 1)%Z ->
  streamsCount p' = (streamsCount p + 1)%Z ->
  (forall channel0, is_Some (subscribed p' !! channel0) ->
     channel0 = channel \/ is_Some (subscribed p !! channel0)) ->
  invariant p'.
Proof.
  intros (Hwf & Hcount & Hsubscribed) Hstreams Hnext Hcount' Hsubscribed'.
  split; [exact (streams_wf_created p p' channel Hwf Hstreams Hnext) |]. split.
  - rewrite Hcount', Hcount. unfold open_streams. rewrite Hstreams, total_insert.
    rewrite (total_default (streams p) channel).
    rewrite map_size_insert_None by exact (created_id_is_fresh p channel Hwf). lia.
  - intros channel0 Hflag. rewrite Hstreams.
    destruct (decide (channel0 = channel)) as [-> | Hne].
    + rewrite lookup_insert_eq. eexists; reflexivity.
    + rewrite lookup_insert_ne by congruence.
      destruct (Hsubscribed' channel0 Hflag) as [-> | Hold]; [congruence |].
      exact (Hsubscribed channel0 Hold).
Qed.

Lemma invariant_same (p p' : PubSub) :
  invariant p ->
  streams p' = streams p -> nextStreamId p' = nextStreamId p ->
  streamsCount p' = streamsCount p -> subscribed p' = subscribed p ->
  invariant p'.
Proof.
  unfold invariant, streams_wf, open_streams.
  intros H -> -> -> ->. exact H.
Qed.

(** What [_removeStream] leaves of the maps when the stream is in the map
    of its channel. *)
Lemma _removeStream_streams (p : PubSub) (channel : string) (stream : OpStream)
    (map : gmap Z OpStream) :
  streams p !! channel = Some map ->
  let p' := _removeStream channel stream p in
  let rest := delete (stream_id stream) map in
  streamsCount p' = (streamsCount p - 1)%Z
  /\ nextStreamId p' = nextStreamId p
  /\ ticks p' = ticks p
  /\ arrays p' = arrays p
  /\ (rest <> ∅ ->
      streams p' = <[channel := rest]> (streams p)
      /\ subscribed p' = subscribed p
      /\ trace p' = trace p)
  /\ (rest = ∅ ->
      streams p' = delete channel (streams p)
      /\ subscribed p' = delete channel (subscribed p)
      /\ trace p' = trace p ++ [Transport_unsubscribe channel]).
Proof.
  intros Hmap. cbv zeta. unfold _removeStream. rewrite Hmap. unfold hasKeys.
  destruct (decide (delete (stream_id stream) map = ∅)) as [Hlast | Hrest].
  - rewrite bool_decide_eq_true_2 by exact Hlast. simpl.
    rewrite delete_insert_eq.
    split_and!; try reflexivity; [intros Hne; contradiction | intros _].
    split_and!; reflexivity.
  - rewrite bool_decide_eq_false_2 by exact Hrest. simpl.
    split_and!; try reflexivity; [intros _ | intros Heq; contradiction].
    split_and!; reflexivity.
Qed.

Lemma invariant_closed (p : PubSub) (channel : string) (stream : OpStream)
    (map : gmap Z OpStream) :
  streams p !! channel = Some map ->
  map !! stream_id stream = Some stream ->
  invariant p ->
  invariant (stream_closed channel stream p).
Proof.
  intros Hmap Hstream ((Hone & Hmaps & Hunique) & Hcount & Hsubscribed).
  unfold stream_closed.
  destruct (_removeStream_streams p channel stream map Hmap)
    as (Hcount' & Hnext' & _ & _ & Hrest & Hlast).
  assert (Hsize : size (delete (stream_id stream) map) = Nat.pred (size map))
    by (apply map_size_delete_Some; eexists; exact Hstream).
  assert (Hpos : (size map <> 0)%nat).
  { intros Hzero. apply map_size_empty_iff in Hzero. rewrite Hzero in Hstream.
    rewrite lookup_empty in Hstream. discriminate Hstream. }
  pose proof (total_delete (streams p) channel map Hmap) as Htotal.
  unfold invariant, streams_wf, open_streams.
  unfold open_streams in Hcount.
  rewrite Hcount', Hnext'.
  destruct (decide (delete (stream_id stream) map = ∅)) as [Hempty | Hnonempty].
  - destruct (Hlast Hempty) as (-> & -> & _).
    rewrite Hempty, map_size_empty in Hsize.
    split_and!.
    + exact Hone.
    + intros channel0 map0 Hmap0. apply lookup_delete_Some in Hmap0 as [_ Hmap0].
      exact (Hmaps _ _ Hmap0).
    + intros channel1 channel2 map1 map2 id Hmap1 Hmap2.
      apply lookup_delete_Some in Hmap1 as [_ Hmap1].
      apply lookup_delete_Some in Hmap2 as [_ Hmap2].
      exact (Hunique _ _ _ _ _ Hmap1 Hmap2).
    + lia.
    + intros channel0 Hflag.
      destruct (decide (channel0 = channel)) as [-> | Hne].
      * rewrite lookup_delete_eq in Hflag. destruct Hflag as [? Hflag]. discriminate Hflag.
      * rewrite lookup_delete_ne in Hflag by congruence.
        rewrite lookup_delete_ne by congruence. exact (Hsubscribed _ Hflag).
  - destruct (Hrest Hnonempty) as (-> & -> & _).
    assert (Hsub : forall id, is_Some (delete (stream_id stream) map !! id) ->
                     is_Some (map !! id)).
    { intros id [s Hs]. apply lookup_delete_Some in Hs as [_ Hs]. eexists; exact Hs. }
    split_and!.
    + exact Hone.
    + intros channel0 map0 Hmap0.
      destruct (decide (channel0 = channel)) as [-> | Hne].
      * rewrite lookup_insert_eq in Hmap0. injection Hmap0 as <-.
        split; [exact Hnonempty |].
        intros id s Hs. apply lookup_delete_Some in Hs as [_ Hs].
        destruct (Hmaps _ _ Hmap) as (_ & Hids). exact (Hids _ _ Hs).
      * rewrite lookup_insert_ne in Hmap0 by congruence. exact (Hmaps _ _ Hmap0).
    + intros channel1 channel2 map1 map2 id Hmap1 Hmap2 Hid1 Hid2.
      destruct (decide (channel1 = channel)) as [-> | Hne1];
        destruct (decide (channel2 = channel)) as [-> | Hne2]; [reflexivity | | |].
      * rewrite lookup_insert_eq in Hmap1. injection Hmap1 as <-.
        rewrite lookup_insert_ne in Hmap2 by congruence.
        exact (Hunique _ _ _ _ _ Hmap Hmap2 (Hsub _ Hid1) Hid2).
      * rewrite lookup_insert_eq in Hmap2. injection Hmap2 as <-.
        rewrite lookup_insert_ne in Hmap1 by congruence.
        exact (Hunique _ _ _ _ _ Hmap1 Hmap Hid1 (Hsub _ Hid2)).
      * rewrite lookup_insert_ne in Hmap1 by congruence.
        rewrite lookup_insert_ne in Hmap2 by congruence.
        exact (Hunique _ _ _ _ _ Hmap1 Hmap2 Hid1 Hid2).
    + rewrite total_insert, Hsize. lia.
    + intros channel0 Hflag.
      destruct (decide (channel0 = channel)) as [-> | Hne].
      * rewrite lookup_insert_eq. eexists; reflexivity.
      * rewrite lookup_insert_ne by congruence. exact (Hsubscribed _ Hflag).
Qed.

Lemma invariant_step (p p' : PubSub) : step p p' -> invariant p -> invariant p'.
Proof.
  intros Hstep Hp. destruct Hstep.
  - apply (invariant_same p); [exact Hp | reflexivity..].
  - apply (invariant_same p); [exact Hp |..];
      unfold publish; destruct (truthy_prefix p); reflexivity.
  - apply (invariant_same p); [exact Hp |..];
      unfold subscribe; destruct (subscribed_flag p (prefixed p channel));
      reflexivity.
  - unfold run_tick. destruct (ticks p) as [| [channel callback] rest] eqn:Hticks;
      [exact Hp |].
    apply (invariant_created p _ channel); [exact Hp | reflexivity.. |].
    intros channel0 Hflag. right. exact Hflag.
  - unfold subscribe_done. destruct (Js.truthy err).
    + apply (invariant_same p); [exact Hp | reflexivity..].
    + apply (invariant_created p _ channel); [exact Hp | reflexivity.. |].
      intros channel0 Hflag. simpl in Hflag.
      destruct (decide (channel0 = channel)) as [-> | Hne]; [left; reflexivity |].
      right. rewrite lookup_insert_ne in Hflag by congruence. exact Hflag.
  - exact (invariant_closed p channel stream map H H0 Hp).
Qed.

Lemma invariant_reachable (p : PubSub) : reachable p -> invariant p.
Proof.
  intros [options_prefix Hrun]. revert p Hrun. apply rtc_ind_r.
  - unfold invariant, streams_wf, open_streams. simpl. split_and!.
    + lia.
    + intros channel map Hmap. rewrite lookup_empty in Hmap. discriminate Hmap.
    + intros channel1 channel2 map1 map2 id Hmap1.
      rewrite lookup_empty in Hmap1. discriminate Hmap1.
    + unfold total. rewrite map_fold_empty. reflexivity.
    + intros channel [flag Hflag]. rewrite lookup_empty in Hflag. discriminate Hflag.
  - intros p1 p2 _ Hstep IH. exact (invariant_step _ _ Hstep IH).
Qed.

Lemma plain_step_is_a_step (p p' : PubSub) : plain_step p p' -> step p p'.
Proof.
  intros Hstep. destruct Hstep; try (constructor; fail).
  exact (step_stream_closed p channel stream map H H0).
Qed.

Lemma plain_reachable_is_reachable (p : PubSub) : plain_reachable p -> reachable p.
Proof.
  intros [options_prefix Hrun]. exists options_prefix.
  revert p Hrun. apply rtc_ind_r; [apply rtc_refl |].
  intros p1 p2 _ Hstep IH. apply (rtc_r _ p1); [exact IH |].
  exact (plain_step_is_a_step _ _ Hstep).
Qed.

(** With the counter as an unbounded integer. *)
Lemma stream_ids_below_counter
    (p : PubSub) (channel : string) (map : gmap Z OpStream) (id : Z)
    (stream : OpStream) :
  reachable p ->
  streams p !! channel = Some map ->
  map !! id = Some stream ->
  stream_id stream = id
  /\ (1 <= id < nextStreamId p)%Z
  /\ forall channel' map',
       streams p !! channel' = Some map' -> is_Some (map' !! id) ->
       channel' = channel.
Proof.
  intros Hreach Hmap Hstream.
  destruct (invariant_reachable p Hreach) as ((_ & Hmaps & Hunique) & _).
  destruct (Hmaps _ _ Hmap) as (_ & Hids).
  destruct (Hids _ _ Hstream) as (Hsame & Hrange).
  split; [exact Hsame |]. split; [exact Hrange |].
  intros channel' map' Hmap' Hid.
  apply (Hunique _ _ _ _ id Hmap' Hmap Hid). eexists; exact Hstream.
Qed.

(** X22. In every state a run on plain channel names can reach with the
    counter of stream ids at most 2^53, where a double has counted
    exactly so far, a stream sits in the map of its channel under its own
    id, the id is one the counter has given out, and no other channel
    holds a stream with that id. *)
Theorem stream_ids_are_unique_and_below_the_counter
    (p : PubSub) (channel : string) (map : gmap Z OpStream) (id : Z)
    (stream : OpStream) :
  plain_reachable p ->
  (nextStreamId p <= 2 ^ 53)%Z ->
  streams p !! channel = Some map ->
  map !! id = Some stream ->
  stream_id stream = id
  /\ (1 <= id < nextStreamId p)%Z
  /\ forall channel' map',
       streams p !! channel' = Some map' -> is_Some (map' !! id) ->
       channel' = channel.
Proof.
  intros Hreach _.
  exact (stream_ids_below_counter p channel map id stream
           (plain_reachable_is_reachable p Hreach)).
Qed.

(** X23. In every state a run on plain channel names can reach with the
    counter of stream ids at most 2^53, [streamsCount] is the number of
    streams in the maps: streams that were created and have not closed. *)
Theorem streamsCount_counts_the_open_streams (p : PubSub) :
  plain_reachable p ->
  (nextStreamId p <= 2 ^ 53)%Z ->
  streamsCount p = Z.of_nat (open_streams p).
Proof.
  intros Hreach _.
  apply (invariant_reachable p (plain_reachable_is_reachable p Hreach)).
Qed.

(** X24. In every state a run can reach, a channel that is marked subscribed,
    or that has a map of streams at all, has at least one open stream. *)
Theorem subscribed_channel_has_an_open_stream (p : PubSub) (channel : string) :
  reachable p ->
  is_Some (subscribed p !! channel) \/ is_Some (streams p !! channel) ->
  exists map id stream,
    streams p !! channel = Some map /\ map !! id = Some stream.
Proof.
  intros Hreach Hcase.
  destruct (invariant_reachable p Hreach) as ((_ & Hmaps & _) & _ & Hsubscribed).
  assert (Hchannel : is_Some (streams p !! channel)).
  { destruct Hcase as [Hflag | Hmap]; [exact (Hsubscribed _ Hflag) | exact Hmap]. }
  destruct Hchannel as [map Hmap]. exists map.
  destruct (Hmaps _ _ Hmap) as (Hnonempty & _).
  destruct (map_choose map Hnonempty) as (id & stream & Hstream).
  exists id, stream. split; [exact Hmap | exact Hstream].
Qed.



(** *** Delivery *)








End PubSubBehaviour.

(** ** Instances of the further properties *)

Module ConnectionInstances.

Import ClientConnection StateMachineSpec Reasoning Behaviour Examples
  BehaviourExamples ConnectionProofs ConnectionBehaviour.








(** Instance of X10: a connected connection is rebound while its socket
    closes at once. *)
Lemma rebinding_witness_closing_socket :
  exists c',
    bindToSocket second_socket connected_on_closing_socket = (c', Normal tt)
    /\ state c' = "connecting"
    /\ canSend c' = false
    /\ socket c' = Some second_socket
    /\ bound c' = true
    /\ id c' = Js.Null
    /\ seq c' = 1%Z.
Proof.
  assert (Hsocket : socket connected_on_closing_socket = Some closing_socket)
    by (vm_compute; reflexivity).
  assert (Hbound : bound connected_on_closing_socket = true)
    by (vm_compute; reflexivity).
  assert (Hfires : close_fires closing_socket = Some (Js.Str "closed")) by reflexivity.
  assert (Hready : readyState second_socket = Js.Num 0
                   \/ readyState second_socket = Js.Num 1) by (right; reflexivity).
  destruct (rebinding_after_a_synchronous_close_reconnects
              connected_on_closing_socket closing_socket second_socket
              (Js.Str "closed") Hsocket Hbound Hfires Hready)
    as (c' & Hrun & Hstate & HcanSend & Hnew & Hbound' & Hreset).
  assert (Hconnected : state connected_on_closing_socket = "connected")
    by (vm_compute; reflexivity).
  destruct (Hreset Hconnected) as [Hid Hseq].
  exists c'. split_and!; assumption.
Defined.


(** Instance of X12: a document is registered where [get] put another. *)
Lemma addDoc_witness_replaces :
  exists c',
    _addDoc (book "id1" 11 Js.Null) reading = (c', Normal tt)
    /\ registered reading "books" "id1" = Some 0%nat
    /\ registered c' "books" "id1" = Some 11%nat.
Proof.
  destruct (addDoc_registers_the_document (book "id1" 11 Js.Null) reading
              eq_refl eq_refl) as (c' & Hrun & Hreg & _).
  exists c'. split_and!; [exact Hrun | vm_compute; reflexivity | exact Hreg].
Defined.






(** Instance of X18: a second query on a connection that has one. *)
Lemma query_id_witness_second_query :
  exists c',
    _createQuery "qs" "books" (Js.Obj []) Js.Null 1 querying
    = (c', Normal (next_ref querying))
    /\ Js.obj_get (pretty (nextQueryId querying)) (queries querying) = None
    /\ Js.obj_get (pretty (nextQueryId querying)) (queries c')
       = Some (next_ref querying)
    /\ (forall k query, Js.obj_get k (queries querying) = Some query ->
          Js.obj_get k (queries c') = Some query)
    /\ nextQueryId c' = (nextQueryId querying + 1)%Z
    /\ trace c'
       = trace querying
         ++ [NewQuery (next_ref querying) "qs" (nextQueryId querying) "books"
               (Js.Obj []) Js.Null 1;
             QueryCall (next_ref querying) "send" []].
Proof.
  assert (Hreach : reachable types_map types_defaultType querying).
  { exists open_socket, [Call_createFetchQuery "books" (Js.Obj []) Js.Null 0].
    reflexivity. }
  assert (Hbound : (nextQueryId querying < 2 ^ 53)%Z) by (vm_compute; reflexivity).
  exact (created_query_never_replaces_a_registered_one types_map types_defaultType
           "qs" "books" (Js.Obj []) Js.Null 1 querying Hreach Hbound).
Defined.


End ConnectionInstances.

Module PubSubInstances.

Import PubSubCore PubSubRuns PubSubDelivery PubSubExamples PubSubBehaviourExamples
  PubSubBehaviour.

Lemma one_stream_is_plain_reachable : plain_reachable one_stream.
Proof.
  exists None.
  apply (rtc_l _ _ (subscribe "room" 7 (new_PubSub None)));
    [apply plain_subscribe; reflexivity |].
  apply rtc_once. apply plain_subscribe_done. reflexivity.
Qed.

Lemma two_streams_is_plain_reachable : plain_reachable two_streams.
Proof.
  destruct one_stream_is_plain_reachable as [options_prefix Hrun].
  exists options_prefix.
  apply (rtc_trans _ one_stream); [exact Hrun |].
  apply (rtc_l _ _ (subscribe "room" 8 one_stream));
    [apply plain_subscribe; reflexivity |].
  apply rtc_once. apply plain_tick.
Qed.

(** Instance of X22: stream 1 of scenario S6. *)
Lemma stream_ids_witness_one_stream :
  (1 <= 1 < nextStreamId one_stream)%Z
  /\ forall channel' map',
       streams one_stream !! channel' = Some map' -> is_Some (map' !! 1%Z) ->
       channel' = "room".
Proof.
  assert (Hbound : (nextStreamId one_stream <= 2 ^ 53)%Z)
    by (vm_compute; discriminate).
  assert (Hmap : streams one_stream !! "room" = Some {[ 1%Z := {| stream_id := 1 |} ]})
    by reflexivity.
  assert (Hstream : ({[ 1%Z := {| stream_id := 1 |} ]} : gmap Z OpStream) !! 1%Z
                    = Some {| stream_id := 1 |}) by reflexivity.
  destruct (stream_ids_are_unique_and_below_the_counter one_stream "room" _ 1
              {| stream_id := 1 |} one_stream_is_plain_reachable Hbound Hmap Hstream)
    as (_ & Hrange & Hunique).
  split; [exact Hrange | exact Hunique].
Defined.

(** Instance of X23: two streams are open after the second subscribe. *)
Lemma streamsCount_witness_two_streams :
  streamsCount two_streams = 2%Z
  /\ streamsCount two_streams = Z.of_nat (open_streams two_streams).
Proof.
  assert (Hbound : (nextStreamId two_streams <= 2 ^ 53)%Z)
    by (vm_compute; discriminate).
  split; [reflexivity |].
  exact (streamsCount_counts_the_open_streams two_streams
           two_streams_is_plain_reachable Hbound).
Defined.

(** Instance of X24: "room" is subscribed in scenario S6. *)
Lemma subscribed_witness_room :
  exists map id stream,
    streams one_stream !! "room" = Some map /\ map !! id = Some stream.
Proof.
  apply (subscribed_channel_has_an_open_stream one_stream "room"
           (plain_reachable_is_reachable _ one_stream_is_plain_reachable)).
  left. exists true. reflexivity.
Defined.




End PubSubInstances.
